(** * ProxyDestination: per-destination health tracking and probe scheduling

    A shallow embedding of [mcrouter/ProxyDestination.cpp].  Every member
    function of [ProxyDestination] becomes a computation in a small
    state-and-abort monad over the object it is invoked on, the owning
    [proxy_t], the shared [TkoTracker] and a history of the calls made to
    collaborators that live outside this translation unit.

    Conventions:
    - C++ [int], [size_t], [uint64_t] and [std::chrono::milliseconds] values
      are integers in [Z].  The only arithmetic that can leave the machine
      range is the conversion of a [double] back to an integer type; see
      [double_to_int] and [double_to_uint64].
    - The [double] values of the probe backoff and jitter are exact rationals
      in [Q]: the product of an [int] by 1.5 is exact in binary64, the jitter
      is not, so the microseconds of a timer are known here up to the effect
      of rounding and are stated as bounds.  A conversion from [double] to an
      integer type truncates toward zero.
    - The smoothing factor of the latency average is an IEEE-754 binary64
      value ([double]), computed with the operations of [SpecFloat].
    - [FBI_ASSERT] and [CHECK] abort the computation when their condition is
      false. *)

From Stdlib Require Import ZArith QArith Qround Lqa Lia.
From Corelib Require Import SpecFloat.
From stdpp Require Import base decidable option list gmap.

Local Open Scope Z_scope.

(** ** Enumerations of the source *)

Inductive ProxyDestinationState := kNew | kUp | kTko | kClosed | kDown.

Inductive stat_name_t :=
  | num_servers_new_stat
  | num_servers_up_stat
  | num_servers_closed_stat
  | num_servers_down_stat
  | num_stats.

Inductive TkoLogEvent := MarkHardTko | MarkSoftTko | UnMarkTko | RemoveFromConfig.

Inductive mc_op_t := mc_op_version.

#[global] Instance ProxyDestinationState_eq_dec : EqDecision ProxyDestinationState.
Proof. solve_decision. Defined.

#[global] Instance stat_name_t_eq_dec : EqDecision stat_name_t.
Proof. solve_decision. Defined.

#[global] Instance TkoLogEvent_eq_dec : EqDecision TkoLogEvent.
Proof. solve_decision. Defined.

(** Addresses of [ProxyDestination] objects ([this]). *)
Definition dest_id := Z.

(** ** Constants of the anonymous namespace *)

Definition kProbeExponentialFactor : Q := 15 # 10.
Definition kProbeJitterMin : Q := 5 # 100.
Definition kProbeJitterMax : Q := 5 # 10.
Definition kProbeJitterDelta : Q := (kProbeJitterMax - kProbeJitterMin)%Q.

(** Conversion of a [double] to an integer type: the fractional part is
    discarded. *)
Definition trunc (q : Q) : Z := Z.quot (Qnum q) (Z.pos (Qden q)).

Definition INT_MIN : Z := -2147483648.
Definition INT_MAX : Z := 2147483647.

(** Conversion to [int].  For a value whose integral part does not fit,
    C++ leaves the result undefined; the conversion instruction of x86-64
    delivers [INT_MIN]. *)
Definition double_to_int (q : Q) : Z :=
  let z := trunc q in
  if (z <? INT_MIN) || (z >? INT_MAX) then INT_MIN else z.

(** Conversion to [uint64_t].  For a negative value C++ leaves the result
    undefined; x86-64 converts to a signed 64-bit integer, which read as
    unsigned is the truncation plus 2^64.  Values of 2^64 and more do not
    arise from an [int] number of milliseconds. *)
Definition double_to_uint64 (q : Q) : Z :=
  let z := trunc q in
  if z <? 0 then z + 2 ^ 64 else z.

(** ** IEEE-754 binary64 *)

Definition double := spec_float.

Definition prec : Z := 53.
Definition emax : Z := 1024.

(** The literal [1.0]. *)
Definition double_one : double := SFone prec emax.

(** Conversion of an integer to [double]. *)
Definition int_to_double (z : Z) : double := binary_normalize prec emax z 0 false.

Definition double_div (x y : double) : double := SFdiv prec emax x y.
Definition double_mul (x y : double) : double := SFmul prec emax x y.
Definition double_add (x y : double) : double := SFadd prec emax x y.
Definition double_sub (x y : double) : double := SFsub prec emax x y.

(** ** Collaborators declared outside this file

    [McReply], [TkoTracker] and [ExponentialSmoothData] are used through
    their member functions only; their definitions are not part of this
    translation unit, so the embedding is parametric in them. *)

Class McReplyApi (mc_res_t : Type) := {
  mc_res_t_eq_dec :: EqDecision mc_res_t;
  mc_res_ok : mc_res_t;
  mc_res_connect_error : mc_res_t;
  res_isError : mc_res_t → bool;
  res_isHardTkoError : mc_res_t → bool;
  res_isSoftTkoError : mc_res_t → bool;
}.

Class TkoTrackerApi (T : Type) := {
  recordSuccess : dest_id → T → T;
  recordHardFailure : dest_id → T → bool * T;
  recordSoftFailure : dest_id → T → bool * T;
  tko_removeDestination : dest_id → T → T;
  isTko : T → bool;
  isHardTko : T → bool;
  isSoftTko : T → bool;
  globalTkos : T → Z * Z;
}.

Class SmoothApi (E : Type) := {
  smooth_make : double → E;
  insertSample : Z → E → E;
  value : E → double;
}.

(** The C library's [rand()]: the sequence of values it will return and the
    bound [RAND_MAX]. *)
Record rand_source := {
  RAND_MAX : Z;
  draws : nat → Z;
}.

Definition rand_wf (g : rand_source) : Prop :=
  0 < RAND_MAX g ∧ ∀ n, 0 ≤ draws g n ≤ RAND_MAX g.

(** ** Plain data *)

Record timeval_t := { tv_sec : Z; tv_usec : Z }.

#[global] Instance timeval_t_eq_dec : EqDecision timeval_t.
Proof. solve_decision. Defined.

(** A timer handle is identified with the delay it was armed with. *)
Definition asox_timer_t := timeval_t.

Definition timer_us (t : asox_timer_t) : Z := tv_sec t * 1000000 + tv_usec t.

Record McRequest := { op : mc_op_t }.

Record DestinationRequestCtx := { startTime : Z; endTime : Z }.

Record McrouterOptions := {
  disable_tko_tracking : bool;
  probe_delay_initial_ms : Z;
  probe_delay_max_ms : Z;
  latency_window_size : Z;
  target_max_inflight_requests : Z;
  target_max_pending_requests : Z;
}.

(** Modelled from the spec: [AsyncMcClient] (mcrouter/lib/network) is not
    part of this file.  The client keeps the write timeout it was given, the
    throttle, whether status callbacks are installed and whether its
    connection is up; [closeNow] on a connection that is up reports the loss
    through the installed down callback. *)
Record AsyncMcClient := {
  writeTimeout : Z;
  statusCallbacks : bool;
  conn_up : bool;
  throttle : option (Z * Z);
}.

(** Calls made to collaborators, most recent last. *)
Inductive Call :=
  | CallRecordSuccess (d : dest_id)
  | CallRecordHardFailure (d : dest_id)
  | CallRecordSoftFailure (d : dest_id)
  | CallSharedRemoveDestination (d : dest_id)
  | CallMapRemoveDestination (d : dest_id)
  | CallMarkAsActive (d : dest_id)
  | CallCloseNow (d : dest_id)
  | CallSetStatusCallbacks (d : dest_id) (installed : bool)
  | CallUpdateWriteTimeout (d : dest_id) (t : Z)
  | CallSetThrottle (d : dest_id) (inflight pending : Z)
  | CallAddTimer (d : dest_id) (delay : timeval_t)
  | CallRemoveTimer (d : dest_id) (timer : asox_timer_t)
  | CallAddTask (d : dest_id)
  | CallSendSync (d : dest_id) (timeout : Z).

(** Result of running a member function: it returns, or the process
    aborts on a failed assertion. *)
Inductive Res (A : Type) :=
  | Ok (a : A)
  | Abort.
Arguments Ok {A} a.
Arguments Abort {A}.

Section Destination.
Context {mc_res_t : Type} `{!McReplyApi mc_res_t}.
Context {T : Type} `{!TkoTrackerApi T}.
Context {E : Type} `{!SmoothApi E}.

Record McReply := { result : mc_res_t }.

Definition isError (r : McReply) : bool := res_isError (result r).
Definition isHardTkoError (r : McReply) : bool := res_isHardTkoError (result r).
Definition isSoftTkoError (r : McReply) : bool := res_isSoftTkoError (result r).

Record TkoLog := {
  event : TkoLogEvent;
  log_isHardTko : bool;
  log_isSoftTko : bool;
  log_globalTkos : Z * Z;
  log_avgLatency : double;
  log_probesSent : Z;
  log_result : mc_res_t;
}.

Record ProxyDestinationStats := {
  state : ProxyDestinationState;
  results : mc_res_t → Z;
  avgLatency : E;
}.

Record ProxyDestination := {
  self : dest_id;
  proxy_magic : Z;
  shortestTimeout : Z;
  stats_ : ProxyDestinationStats;
  client_ : option AsyncMcClient;
  resetting : bool;
  sending_probes : bool;
  probe_delay_next_ms : Z;
  probe_timer : option asox_timer_t;
  probe_req : option McRequest;
  probesSent_ : Z;
}.

Record proxy_t := {
  magic : Z;
  opts : McrouterOptions;
  stats : stat_name_t → Z;
  tko_events : list TkoLog;
  has_destinationMap : bool;
}.

(** What a member function can read and write. *)
Record Ctx := {
  this : ProxyDestination;
  proxy : proxy_t;
  shared_tko : T;
  calls : list Call;
  rng : rand_source;
  rng_pos : nat;
}.

(** *** Field updates *)

Definition set_state (s : ProxyDestinationState) (st : ProxyDestinationStats) :=
  {| state := s; results := results st; avgLatency := avgLatency st |}.
Definition set_results (r : mc_res_t → Z) (st : ProxyDestinationStats) :=
  {| state := state st; results := r; avgLatency := avgLatency st |}.
Definition set_avgLatency (a : E) (st : ProxyDestinationStats) :=
  {| state := state st; results := results st; avgLatency := a |}.

Definition set_shortestTimeout (t : Z) (d : ProxyDestination) :=
  {| self := self d; proxy_magic := proxy_magic d; shortestTimeout := t;
     stats_ := stats_ d; client_ := client_ d; resetting := resetting d;
     sending_probes := sending_probes d;
     probe_delay_next_ms := probe_delay_next_ms d;
     probe_timer := probe_timer d; probe_req := probe_req d;
     probesSent_ := probesSent_ d |}.
Definition set_stats_ (st : ProxyDestinationStats) (d : ProxyDestination) :=
  {| self := self d; proxy_magic := proxy_magic d;
     shortestTimeout := shortestTimeout d;
     stats_ := st; client_ := client_ d; resetting := resetting d;
     sending_probes := sending_probes d;
     probe_delay_next_ms := probe_delay_next_ms d;
     probe_timer := probe_timer d; probe_req := probe_req d;
     probesSent_ := probesSent_ d |}.
Definition set_client_ (c : option AsyncMcClient) (d : ProxyDestination) :=
  {| self := self d; proxy_magic := proxy_magic d;
     shortestTimeout := shortestTimeout d;
     stats_ := stats_ d; client_ := c; resetting := resetting d;
     sending_probes := sending_probes d;
     probe_delay_next_ms := probe_delay_next_ms d;
     probe_timer := probe_timer d; probe_req := probe_req d;
     probesSent_ := probesSent_ d |}.
Definition set_resetting (b : bool) (d : ProxyDestination) :=
  {| self := self d; proxy_magic := proxy_magic d;
     shortestTimeout := shortestTimeout d;
     stats_ := stats_ d; client_ := client_ d; resetting := b;
     sending_probes := sending_probes d;
     probe_delay_next_ms := probe_delay_next_ms d;
     probe_timer := probe_timer d; probe_req := probe_req d;
     probesSent_ := probesSent_ d |}.
Definition set_sending_probes (b : bool) (d : ProxyDestination) :=
  {| self := self d; proxy_magic := proxy_magic d;
     shortestTimeout := shortestTimeout d;
     stats_ := stats_ d; client_ := client_ d; resetting := resetting d;
     sending_probes := b;
     probe_delay_next_ms := probe_delay_next_ms d;
     probe_timer := probe_timer d; probe_req := probe_req d;
     probesSent_ := probesSent_ d |}.
Definition set_probe_delay_next_ms (n : Z) (d : ProxyDestination) :=
  {| self := self d; proxy_magic := proxy_magic d;
     shortestTimeout := shortestTimeout d;
     stats_ := stats_ d; client_ := client_ d; resetting := resetting d;
     sending_probes := sending_probes d;
     probe_delay_next_ms := n;
     probe_timer := probe_timer d; probe_req := probe_req d;
     probesSent_ := probesSent_ d |}.
Definition set_probe_timer (t : option asox_timer_t) (d : ProxyDestination) :=
  {| self := self d; proxy_magic := proxy_magic d;
     shortestTimeout := shortestTimeout d;
     stats_ := stats_ d; client_ := client_ d; resetting := resetting d;
     sending_probes := sending_probes d;
     probe_delay_next_ms := probe_delay_next_ms d;
     probe_timer := t; probe_req := probe_req d;
     probesSent_ := probesSent_ d |}.
Definition set_probe_req (r : option McRequest) (d : ProxyDestination) :=
  {| self := self d; proxy_magic := proxy_magic d;
     shortestTimeout := shortestTimeout d;
     stats_ := stats_ d; client_ := client_ d; resetting := resetting d;
     sending_probes := sending_probes d;
     probe_delay_next_ms := probe_delay_next_ms d;
     probe_timer := probe_timer d; probe_req := r;
     probesSent_ := probesSent_ d |}.
Definition set_probesSent_ (n : Z) (d : ProxyDestination) :=
  {| self := self d; proxy_magic := proxy_magic d;
     shortestTimeout := shortestTimeout d;
     stats_ := stats_ d; client_ := client_ d; resetting := resetting d;
     sending_probes := sending_probes d;
     probe_delay_next_ms := probe_delay_next_ms d;
     probe_timer := probe_timer d; probe_req := probe_req d;
     probesSent_ := n |}.

Definition set_stats (s : stat_name_t → Z) (p : proxy_t) :=
  {| magic := magic p; opts := opts p; stats := s;
     tko_events := tko_events p; has_destinationMap := has_destinationMap p |}.
Definition set_tko_events (l : list TkoLog) (p : proxy_t) :=
  {| magic := magic p; opts := opts p; stats := stats p;
     tko_events := l; has_destinationMap := has_destinationMap p |}.

Definition set_this (d : ProxyDestination) (c : Ctx) :=
  {| this := d; proxy := proxy c; shared_tko := shared_tko c;
     calls := calls c; rng := rng c; rng_pos := rng_pos c |}.
Definition set_proxy (p : proxy_t) (c : Ctx) :=
  {| this := this c; proxy := p; shared_tko := shared_tko c;
     calls := calls c; rng := rng c; rng_pos := rng_pos c |}.
Definition set_shared_tko (t : T) (c : Ctx) :=
  {| this := this c; proxy := proxy c; shared_tko := t;
     calls := calls c; rng := rng c; rng_pos := rng_pos c |}.
Definition set_calls (l : list Call) (c : Ctx) :=
  {| this := this c; proxy := proxy c; shared_tko := shared_tko c;
     calls := l; rng := rng c; rng_pos := rng_pos c |}.
Definition set_rng_pos (n : nat) (c : Ctx) :=
  {| this := this c; proxy := proxy c; shared_tko := shared_tko c;
     calls := calls c; rng := rng c; rng_pos := n |}.

(** *** The monad of member functions *)

Definition M (A : Type) : Type := Ctx → Res (A * Ctx).

Definition ret {A} (a : A) : M A := λ c, Ok (a, c).

Definition bind {A B} (m : M A) (k : A → M B) : M B :=
  λ c, match m c with
       | Ok (a, c') => k a c'
       | Abort => Abort
       end.

Definition abort {A} : M A := λ _, Abort.

Definition get : M Ctx := λ c, Ok (c, c).
Definition modify (f : Ctx → Ctx) : M unit := λ c, Ok (tt, f c).
Definition modify_this (f : ProxyDestination → ProxyDestination) : M unit :=
  modify (λ c, set_this (f (this c)) c).
Definition modify_proxy (f : proxy_t → proxy_t) : M unit :=
  modify (λ c, set_proxy (f (proxy c)) c).
Definition call (k : dest_id → Call) : M unit :=
  modify (λ c, set_calls (calls c ++ [k (self (this c))]) c).

Notation "x <- c ; k" := (bind c (λ x, k))
  (at level 20, c at level 100, k at level 200, only parsing).
Notation "c ;; k" := (bind c (λ _, k))
  (at level 100, k at level 200, only parsing, right associativity).

(** Modelled from the spec: [FBI_ASSERT] (mcrouter/lib/fbi/debug.h) and
    glog's [CHECK] are not part of this file; a violated assertion is
    fatal. *)
Definition FBI_ASSERT (b : bool) : M unit := if b then ret tt else abort.
Definition CHECK (b : bool) : M unit := if b then ret tt else abort.

(** Modelled from the spec: [stat_incr] and [stat_decr] (mcrouter/stats.h)
    move one gauge by the given amount and leave the others alone. *)
Definition stat_incr (s : stat_name_t → Z) (name : stat_name_t) (amount : Z)
  : stat_name_t → Z :=
  λ n, if decide (n = name) then s n + amount else s n.
Definition stat_decr (s : stat_name_t → Z) (name : stat_name_t) (amount : Z)
  : stat_name_t → Z :=
  stat_incr s name (- amount).

(** [rand()] *)
Definition rand : M Z :=
  c <- get;
  modify (set_rng_pos (S (rng_pos c)));;
  ret (draws (rng c) (rng_pos c)).

(** The assertion [proxy->magic == proxy_magic]. *)
Definition assert_proxy_magic : M unit :=
  c <- get;
  FBI_ASSERT (magic (proxy c) =? proxy_magic (this c)).

(** *** Wrappers around the collaborators' member functions *)

Definition tko_recordSuccess : M unit :=
  c <- get;
  call CallRecordSuccess;;
  modify (set_shared_tko (recordSuccess (self (this c)) (shared_tko c))).

Definition tko_recordHardFailure : M bool :=
  c <- get;
  call CallRecordHardFailure;;
  modify (set_shared_tko (recordHardFailure (self (this c)) (shared_tko c)).2);;
  ret (recordHardFailure (self (this c)) (shared_tko c)).1.

Definition tko_recordSoftFailure : M bool :=
  c <- get;
  call CallRecordSoftFailure;;
  modify (set_shared_tko (recordSoftFailure (self (this c)) (shared_tko c)).2);;
  ret (recordSoftFailure (self (this c)) (shared_tko c)).1.

Definition shared_removeDestination : M unit :=
  c <- get;
  call CallSharedRemoveDestination;;
  modify (set_shared_tko (tko_removeDestination (self (this c)) (shared_tko c))).

(** Runs [k] on the client behind [client_]; the pointer must not be null. *)
Definition with_client (k : AsyncMcClient → M unit) : M unit :=
  c <- get;
  match client_ (this c) with
  | Some cl => k cl
  | None => abort
  end.

Definition client_setStatusCallbacks (installed : bool) : M unit :=
  with_client (λ cl,
    call (λ d, CallSetStatusCallbacks d installed);;
    modify_this (set_client_ (Some
      {| writeTimeout := writeTimeout cl; statusCallbacks := installed;
         conn_up := conn_up cl; throttle := throttle cl |}))).

Definition client_updateWriteTimeout (t : Z) : M unit :=
  with_client (λ cl,
    call (λ d, CallUpdateWriteTimeout d t);;
    modify_this (set_client_ (Some
      {| writeTimeout := t; statusCallbacks := statusCallbacks cl;
         conn_up := conn_up cl; throttle := throttle cl |}))).

Definition client_setThrottle (inflight pending : Z) : M unit :=
  with_client (λ cl,
    call (λ d, CallSetThrottle d inflight pending);;
    modify_this (set_client_ (Some
      {| writeTimeout := writeTimeout cl; statusCallbacks := statusCallbacks cl;
         conn_up := conn_up cl; throttle := Some (inflight, pending) |}))).

(** Modelled from the spec: [AsyncMcClient::closeNow].  The connection is
    gone afterwards; if it was up and a down callback is installed, that
    callback ([down]) runs before [closeNow] returns. *)
Definition client_closeNow (down : M unit) : M unit :=
  with_client (λ cl,
    call CallCloseNow;;
    modify_this (set_client_ (Some
      {| writeTimeout := writeTimeout cl; statusCallbacks := statusCallbacks cl;
         conn_up := false; throttle := throttle cl |}));;
    if conn_up cl && statusCallbacks cl then down else ret tt).

(** *** Member functions, in the order of the source *)

Definition getStatName (st : ProxyDestinationState) : M stat_name_t :=
  match st with
  | kNew => ret num_servers_new_stat
  | kUp => ret num_servers_up_stat
  | kClosed => ret num_servers_closed_stat
  | kDown => ret num_servers_down_stat
  | _ => CHECK false;; ret num_stats
  end.

(** The two computations of [schedule_next_probe]: the value left in
    [probe_delay_next_ms], and the jittered delay in microseconds for the
    value [k] returned by [rand()]. *)
Definition next_probe_delay (max_ms delay_ms : Z) : Z :=
  let next :=
    if delay_ms <? 2 then 2
    else double_to_int (inject_Z delay_ms * kProbeExponentialFactor) in
  if next >? max_ms then max_ms else next.

Definition tmo_jitter_pct (rand_max k : Z) : Q :=
  let r := (inject_Z k / inject_Z rand_max)%Q in
  (r * kProbeJitterDelta + kProbeJitterMin)%Q.

Definition jittered_delay_us (rand_max k delay_ms : Z) : Z :=
  double_to_uint64
    (inject_Z delay_ms * 1000 * (1 + tmo_jitter_pct rand_max k))%Q.

Definition schedule_next_probe : M unit :=
  assert_proxy_magic;;
  c <- get;
  FBI_ASSERT (negb (disable_tko_tracking (opts (proxy c))));;
  let delay_ms := probe_delay_next_ms (this c) in
  modify_this (set_probe_delay_next_ms
    (next_probe_delay (probe_delay_max_ms (opts (proxy c))) delay_ms));;
  k <- rand;
  let delay_us := jittered_delay_us (RAND_MAX (rng c)) k delay_ms in
  FBI_ASSERT (delay_us >? 0);;
  let delay := {| tv_sec := delay_us / 1000000;
                  tv_usec := delay_us mod 1000000 |} in
  c' <- get;
  FBI_ASSERT (bool_decide (probe_timer (this c') = None));;
  call (λ d, CallAddTimer d delay);;
  modify_this (set_probe_timer (Some delay)).

Definition on_timer (timer : asox_timer_t) : M unit :=
  assert_proxy_magic;;
  c <- get;
  FBI_ASSERT (bool_decide (probe_timer (this c) = Some timer));;
  call (λ d, CallRemoveTimer d timer);;
  modify_this (set_probe_timer None);;
  if sending_probes (this c) then
    (match probe_req (this c) with
     | None =>
         modify_this (set_probe_req (Some {| op := mc_op_version |}));;
         modify_this (λ d, set_probesSent_ (probesSent_ d + 1) d);;
         call CallAddTask
     | Some _ => ret tt
     end);;
    schedule_next_probe
  else ret tt.

Definition start_sending_probes : M unit :=
  c <- get;
  FBI_ASSERT (negb (sending_probes (this c)));;
  modify_this (set_sending_probes true);;
  modify_this (set_probe_delay_next_ms (probe_delay_initial_ms (opts (proxy c))));;
  schedule_next_probe.

Definition stop_sending_probes : M unit :=
  modify_this (set_probesSent_ 0);;
  modify_this (set_sending_probes false);;
  c <- get;
  match probe_timer (this c) with
  | Some t =>
      call (λ d, CallRemoveTimer d t);;
      modify_this (set_probe_timer None)
  | None => ret tt
  end.

Definition onTkoEvent (ev : TkoLogEvent) (res : mc_res_t) : M unit :=
  c <- get;
  let tkoLog :=
    {| event := ev;
       log_isHardTko := isHardTko (shared_tko c);
       log_isSoftTko := isSoftTko (shared_tko c);
       log_globalTkos := globalTkos (shared_tko c);
       log_avgLatency := value (avgLatency (stats_ (this c)));
       log_probesSent := probesSent_ (this c);
       log_result := res |} in
  modify_proxy (λ p, set_tko_events (tko_events p ++ [tkoLog]) p).

Definition unmark_tko (reply : McReply) : M unit :=
  c <- get;
  FBI_ASSERT (negb (disable_tko_tracking (opts (proxy c))));;
  tko_recordSuccess;;
  if sending_probes (this c) then
    onTkoEvent UnMarkTko (result reply);;
    stop_sending_probes
  else ret tt.

Definition handle_tko (reply : McReply) (is_probe_req : bool) : M unit :=
  c <- get;
  if resetting (this c) || disable_tko_tracking (opts (proxy c)) then ret tt
  else
    responsible <-
      (if isError reply then
         if isHardTkoError reply then
           responsible <- tko_recordHardFailure;
           (if responsible : bool
            then onTkoEvent MarkHardTko (result reply) else ret tt);;
           ret responsible
         else if isSoftTkoError reply then
           responsible <- tko_recordSoftFailure;
           (if responsible : bool
            then onTkoEvent MarkSoftTko (result reply) else ret tt);;
           ret responsible
         else ret false
       else if negb (sending_probes (this c)) || is_probe_req then
         unmark_tko reply;;
         ret false
       else ret false);
    if responsible : bool then start_sending_probes else ret tt.

(** [now] is the value returned by [nowUs()]; the request context is
    passed by reference in the source and returned here. *)
Definition onReply (reply : McReply) (destreqCtx : DestinationRequestCtx)
    (now : Z) : M DestinationRequestCtx :=
  assert_proxy_magic;;
  handle_tko reply false;;
  modify_this (λ d, set_stats_ (set_results
    (λ r, if decide (r = result reply)
          then results (stats_ d) r + 1 else results (stats_ d) r)
    (stats_ d)) d);;
  let destreqCtx := {| startTime := startTime destreqCtx; endTime := now |} in
  let latency := endTime destreqCtx - startTime destreqCtx in
  modify_this (λ d, set_stats_ (set_avgLatency
    (insertSample latency (avgLatency (stats_ d))) (stats_ d)) d);;
  ret destreqCtx.

Definition setState (new_st : ProxyDestinationState) : M unit :=
  c <- get;
  let old_st := state (stats_ (this c)) in
  if decide (old_st ≠ new_st) then
    old_name <- getStatName old_st;
    new_name <- getStatName new_st;
    modify_proxy (λ p, set_stats (stat_decr (stats p) old_name 1) p);;
    modify_proxy (λ p, set_stats (stat_incr (stats p) new_name 1) p);;
    modify_this (λ d, set_stats_ (set_state new_st (stats_ d)) d)
  else ret tt.

Definition on_up : M unit :=
  assert_proxy_magic;;
  c <- get;
  FBI_ASSERT (bool_decide (state (stats_ (this c)) ≠ kUp));;
  setState kUp.

Definition on_down : M unit :=
  assert_proxy_magic;;
  c <- get;
  if resetting (this c) then
    setState kClosed
  else
    setState kDown;;
    handle_tko {| result := mc_res_connect_error |} false.

Definition ProxyDestination_dtor : M unit :=
  shared_removeDestination;;
  c <- get;
  (if has_destinationMap (proxy c)
   then call CallMapRemoveDestination else ret tt);;
  (match client_ (this c) with
   | Some _ =>
       client_setStatusCallbacks false;;
       client_closeNow on_down
   | None => ret tt
   end);;
  c <- get;
  (if sending_probes (this c) then
     onTkoEvent RemoveFromConfig mc_res_ok;;
     stop_sending_probes
   else ret tt);;
  c <- get;
  name <- getStatName (state (stats_ (this c)));
  modify_proxy (λ p, set_stats (stat_decr (stats p) name 1) p).

(** The constructor.  The default member initialisers are in
    ProxyDestination.h, which is not part of this file; they are taken from
    the specification: a destination is created in [kNew], not resetting,
    not probing, with no timer, no probe in flight and [probesSent_ = 0].
    The object's own [magic] sentinel, which nothing reads, is left out. *)
Definition ProxyDestination_ctor (addr : dest_id) (server_timeout : Z)
    (p : proxy_t) : ProxyDestination * proxy_t :=
  ({| self := addr;
      proxy_magic := magic p;
      shortestTimeout := server_timeout;
      stats_ := {| state := kNew;
                   results := λ _, 0;
                   avgLatency :=
                     smooth_make
                       (double_div double_one
                          (int_to_double (latency_window_size (opts p)))) |};
      client_ := None;
      resetting := false;
      sending_probes := false;
      probe_delay_next_ms := 0;
      probe_timer := None;
      probe_req := None;
      probesSent_ := 0 |},
   set_stats (stat_incr (stats p) num_servers_new_stat 1) p).

Definition get_state : M ProxyDestinationState :=
  c <- get;
  if isTko (shared_tko c) then ret kTko else ret (state (stats_ (this c))).

Definition may_send : M bool :=
  assert_proxy_magic;;
  c <- get;
  ret (negb (isTko (shared_tko c))).

Definition resetInactive : M unit :=
  assert_proxy_magic;;
  c <- get;
  match client_ (this c) with
  | Some _ =>
      modify_this (set_resetting true);;
      client_closeNow on_down;;
      modify_this (set_client_ None);;
      modify_this (set_resetting false)
  | None => ret tt
  end.

(** The creation of the client.  What can stop it, [CHECK(proxy->eventBase)]
    and the [checkLogic] on the TLS paths, is decided by data that is not
    part of the state modelled here: this is the function on the runs in
    which both hold.  The TLS and keep-alive options do not influence anything
    modelled here and are left out of the client. *)
Definition initializeAsyncMcClient : M unit :=
  c <- get;
  (match client_ (this c) with None => ret tt | Some _ => abort end);;
  modify_this (set_client_ (Some
    {| writeTimeout := shortestTimeout (this c); statusCallbacks := false;
       conn_up := false; throttle := None |}));;
  client_setStatusCallbacks true;;
  if target_max_inflight_requests (opts (proxy c)) >? 0 then
    client_setThrottle (target_max_inflight_requests (opts (proxy c)))
                       (target_max_pending_requests (opts (proxy c)))
  else ret tt.

Definition getAsyncMcClient : M unit :=
  c <- get;
  match client_ (this c) with
  | None => initializeAsyncMcClient
  | Some _ => ret tt
  end.

Definition updateShortestTimeout (timeout : Z) : M unit :=
  if timeout =? 0 then ret tt
  else
    c <- get;
    if (shortestTimeout (this c) =? 0) || (shortestTimeout (this c) >? timeout)
    then
      modify_this (set_shortestTimeout timeout);;
      c' <- get;
      match client_ (this c') with
      | Some _ => client_updateWriteTimeout (shortestTimeout (this c'))
      | None => ret tt
      end
    else ret tt.

(** The fiber task queued by [on_timer], up to the point where [sendSync]
    suspends, and from the arrival of the reply on.  The task runs only if
    the weak pointer can still be locked, that is, on a live object. *)
Definition probe_task_send : M unit :=
  call CallMarkAsActive;;
  getAsyncMcClient;;
  c <- get;
  call (λ d, CallSendSync d (shortestTimeout (this c))).

Definition probe_task_reply (reply : McReply) : M unit :=
  handle_tko reply true;;
  modify_this (set_probe_req None).

(** Modelled from the spec: the client reporting an established connection
    and a socket error through the installed status callbacks. *)
Definition client_connected : M unit :=
  with_client (λ cl,
    modify_this (set_client_ (Some
      {| writeTimeout := writeTimeout cl; statusCallbacks := statusCallbacks cl;
         conn_up := true; throttle := throttle cl |}));;
    if statusCallbacks cl then on_up else ret tt).

Definition client_socket_error : M unit :=
  with_client (λ cl,
    modify_this (set_client_ (Some
      {| writeTimeout := writeTimeout cl; statusCallbacks := statusCallbacks cl;
         conn_up := false; throttle := throttle cl |}));;
    if statusCallbacks cl then on_down else ret tt).

(** The event loop delivering the armed probe timer ([on_probe_timer]). *)
Definition fire_probe_timer : M unit :=
  c <- get;
  match probe_timer (this c) with
  | Some timer => on_timer timer
  | None => abort
  end.

(** [start_sending_probes] followed by [n] expirations of the probe timer. *)
Fixpoint probe_episode (n : nat) : M unit :=
  match n with
  | O => start_sending_probes
  | S n' => probe_episode n';; fire_probe_timer
  end.

Definition start_then_stop : M unit :=
  start_sending_probes;;
  stop_sending_probes.

(** *** All destinations of one proxy

    The heap maps the address of every live [ProxyDestination] of a proxy
    to the object and to the [TkoTracker] of the endpoint it points to. *)

Record World := {
  heap : gmap dest_id (ProxyDestination * T);
  w_proxy : proxy_t;
  w_calls : list Call;
  w_rng : rand_source;
  w_rng_pos : nat;
}.

(** Runs a member function on the object at address [a]; calling through a
    dangling pointer has no meaning. *)
Definition run_on {A} (a : dest_id) (m : M A) (w : World) : Res (A * World) :=
  match heap w !! a with
  | None => Abort
  | Some (d, t) =>
      match m {| this := d; proxy := w_proxy w; shared_tko := t;
                 calls := w_calls w; rng := w_rng w; rng_pos := w_rng_pos w |} with
      | Ok (x, c) =>
          Ok (x, {| heap := <[a := (this c, shared_tko c)]> (heap w);
                    w_proxy := proxy c; w_calls := calls c;
                    w_rng := rng c; w_rng_pos := rng_pos c |})
      | Abort => Abort
      end
  end.

(** What can happen to the destinations of a proxy. *)
Inductive Event :=
  | EvCreate (a : dest_id) (server_timeout : Z) (tko : T)
  | EvDestroy (a : dest_id)
  | EvOnReply (a : dest_id) (reply : McReply) (ctx : DestinationRequestCtx) (now : Z)
  | EvTimer (a : dest_id)
  | EvResetInactive (a : dest_id)
  | EvUpdateShortestTimeout (a : dest_id) (timeout : Z)
  | EvProbeSend (a : dest_id)
  | EvProbeReply (a : dest_id) (reply : McReply)
  | EvConnected (a : dest_id)
  | EvSocketError (a : dest_id)
  | EvOtherWorker (a : dest_id) (tko : T).

Definition drop_result {A} (r : Res (A * World)) : Res World :=
  match r with
  | Ok (_, w) => Ok w
  | Abort => Abort
  end.

Definition step (e : Event) (w : World) : Res World :=
  match e with
  | EvCreate a server_timeout tko =>
      match heap w !! a with
      | Some _ => Abort
      | None =>
          let '(d, p) := ProxyDestination_ctor a server_timeout (w_proxy w) in
          Ok {| heap := <[a := (d, tko)]> (heap w); w_proxy := p;
                w_calls := w_calls w; w_rng := w_rng w;
                w_rng_pos := w_rng_pos w |}
      end
  | EvDestroy a =>
      match run_on a ProxyDestination_dtor w with
      | Ok (_, w') =>
          Ok {| heap := delete a (heap w'); w_proxy := w_proxy w';
                w_calls := w_calls w'; w_rng := w_rng w';
                w_rng_pos := w_rng_pos w' |}
      | Abort => Abort
      end
  | EvOnReply a reply ctx now => drop_result (run_on a (onReply reply ctx now) w)
  | EvTimer a => drop_result (run_on a fire_probe_timer w)
  | EvResetInactive a => drop_result (run_on a resetInactive w)
  | EvUpdateShortestTimeout a timeout =>
      drop_result (run_on a (updateShortestTimeout timeout) w)
  | EvProbeSend a => drop_result (run_on a probe_task_send w)
  | EvProbeReply a reply => drop_result (run_on a (probe_task_reply reply) w)
  | EvConnected a => drop_result (run_on a client_connected w)
  | EvSocketError a => drop_result (run_on a client_socket_error w)
  | EvOtherWorker a tko =>
      match heap w !! a with
      | Some (d, _) =>
          Ok {| heap := <[a := (d, tko)]> (heap w); w_proxy := w_proxy w;
                w_calls := w_calls w; w_rng := w_rng w;
                w_rng_pos := w_rng_pos w |}
      | None => Abort
      end
  end.

Fixpoint run (evs : list Event) (w : World) : Res World :=
  match evs with
  | [] => Ok w
  | e :: evs' =>
      match step e w with
      | Ok w' => run evs' w'
      | Abort => Abort
      end
  end.

(** A proxy before any destination is created: all gauges read zero. *)
Definition init_world (magic0 : Z) (o : McrouterOptions) (g : rand_source) : World :=
  {| heap := ∅;
     w_proxy := {| magic := magic0; opts := o; stats := λ _, 0;
                   tko_events := []; has_destinationMap := true |};
     w_calls := []; w_rng := g; w_rng_pos := O |}.

(** The gauge a local state is counted in, if any. *)
Definition stat_of (st : ProxyDestinationState) : option stat_name_t :=
  match st with
  | kNew => Some num_servers_new_stat
  | kUp => Some num_servers_up_stat
  | kClosed => Some num_servers_closed_stat
  | kDown => Some num_servers_down_stat
  | kTko => None
  end.

Definition gauge_sum (p : proxy_t) : Z :=
  stats p num_servers_new_stat + stats p num_servers_up_stat
  + stats p num_servers_closed_stat + stats p num_servers_down_stat.

(** Number of live destinations whose local state is counted in gauge [n]. *)
Definition count_in (n : stat_name_t) (h : gmap dest_id (ProxyDestination * T)) : nat :=
  size (filter (λ kv, stat_of (state (stats_ (kv.2.1))) = Some n) h).

(** Delay of a timer in milliseconds. *)
Definition timer_ms (t : asox_timer_t) : Q := (inject_Z (timer_us t) / 1000)%Q.

(** The delay sequence of the specification for an initial delay of 1 ms
    and a maximum of 10 ms: 1, 2, 3, 4, 6, 9, 10, 10, ... *)
Definition backoff_1_10 (n : nat) : Z := nth n [1; 2; 3; 4; 6; 9] 10.

(** The preconditions that the assertions of the probe scheduler check. *)
Definition scheduler_ready (c : Ctx) : Prop :=
  magic (proxy c) = proxy_magic (this c)
  ∧ disable_tko_tracking (opts (proxy c)) = false
  ∧ probe_timer (this c) = None
  ∧ rand_wf (rng c).

(** The timer armed by [schedule_next_probe] for the pre-jitter delay [d]. *)
Definition armed_timer (c : Ctx) (d : Z) : asox_timer_t :=
  let us := jittered_delay_us (RAND_MAX (rng c)) (draws (rng c) (rng_pos c)) d in
  {| tv_sec := us / 1000000; tv_usec := us mod 1000000 |}.

(** *** Relations between the state before and after a member function *)

(** Every returning run of [m] relates the state it starts in to the state
    it ends in by [R]. *)
Definition sat {A} (R : Ctx → Ctx → Prop) (m : M A) : Prop :=
  ∀ c a c', m c = Ok (a, c') → R c c'.

(** The statistics of the destination and the gauges of the proxy are
    untouched, and every TKO event logged in between carries the average
    latency that the destination had at the start. *)
Definition tko_frame (c c' : Ctx) : Prop :=
  stats_ (this c') = stats_ (this c)
  ∧ stats (proxy c') = stats (proxy c)
  ∧ ∃ evs, tko_events (proxy c') = tko_events (proxy c) ++ evs
           ∧ Forall (λ e, log_avgLatency e
                          = value (avgLatency (stats_ (this c)))) evs.

(** What a destination adds to gauge [n]. *)
Definition contrib (d : ProxyDestination) (n : stat_name_t) : Z :=
  if decide (stat_of (state (stats_ d)) = Some n) then 1 else 0.

(** The gauges move only by what the destination itself adds to them, and
    the local state stays one that has a gauge. *)
Definition gauge_frame (c c' : Ctx) : Prop :=
  (∀ n, stats (proxy c') n - contrib (this c') n
        = stats (proxy c) n - contrib (this c) n)
  ∧ (state (stats_ (this c)) ≠ kTko → state (stats_ (this c')) ≠ kTko).

(** Conditions under which the assertions reached from [handle_tko] hold:
    the proxy is the one the destination was created on, a destination that
    is not probing has no timer armed, the configured initial delay is
    positive, and the tracker does not elect a destination that is already
    sending probes. *)
Definition tko_ready (c : Ctx) : Prop :=
  magic (proxy c) = proxy_magic (this c)
  ∧ rand_wf (rng c)
  ∧ 1 ≤ probe_delay_initial_ms (opts (proxy c))
  ∧ (sending_probes (this c) = false → probe_timer (this c) = None)
  ∧ (sending_probes (this c) = true →
     (recordHardFailure (self (this c)) (shared_tko c)).1 = false
     ∧ (recordSoftFailure (self (this c)) (shared_tko c)).1 = false).

(** The gauges of a proxy agree with its live destinations: every gauge
    counts the destinations in its local state, and no destination has the
    observed-only state [kTko] as its local state. *)
Definition gauges_agree (w : World) : Prop :=
  (∀ n, stats (w_proxy w) n = Z.of_nat (count_in n (heap w)))
  ∧ (∀ a d t, heap w !! a = Some (d, t) → state (stats_ d) ≠ kTko).

(** *** Invariants of a proxy and its destinations *)

(** The probe scheduler of a destination is consistent: a destination that
    is not sending probes has no timer armed and has counted no probe, and
    a destination that is sending probes has its next timer armed. *)
Definition probe_consistent (d : ProxyDestination) : Prop :=
  (sending_probes d = false → probe_timer d = None ∧ probesSent_ d = 0)
  ∧ (sending_probes d = true → probe_timer d ≠ None).

(** The client, when there is one, writes with the shortest timeout. *)
Definition timeout_synced (d : ProxyDestination) : Prop :=
  ∀ cl, client_ d = Some cl → writeTimeout cl = shortestTimeout d.

Definition not_probing (d : ProxyDestination) : Prop :=
  sending_probes d = false ∧ probe_timer d = None.

(** Calls that record a success or a failure with the tracker. *)
Definition is_record_call (k : Call) : bool :=
  match k with
  | CallRecordSuccess _ | CallRecordHardFailure _ | CallRecordSoftFailure _ => true
  | _ => false
  end.

(** TKO tracking is disabled and has left no trace. *)
Definition tracking_off (p : proxy_t) (l : list Call) : Prop :=
  disable_tko_tracking (opts p) = true
  ∧ tko_events p = []
  ∧ Forall (λ k, is_record_call k = false) l.

Definition no_condition (p : proxy_t) (l : list Call) : Prop := True.

(** [P] holds of the proxy and the call history and [Q] of the object. *)
Definition ctx_inv (P : proxy_t → list Call → Prop)
    (Q : ProxyDestination → Prop) (c : Ctx) : Prop :=
  P (proxy c) (calls c) ∧ Q (this c).

(** [P] holds of the proxy and the call history and [Q] of every live
    destination. *)
Definition world_inv (P : proxy_t → list Call → Prop)
    (Q : ProxyDestination → Prop) (w : World) : Prop :=
  P (w_proxy w) (w_calls w) ∧ ∀ a d t, heap w !! a = Some (d, t) → Q d.

(** A member function keeps [ctx_inv P Q]. *)
Definition keeps (P : proxy_t → list Call → Prop)
    (Q : ProxyDestination → Prop) (c c' : Ctx) : Prop :=
  ctx_inv P Q c → ctx_inv P Q c'.

(** Nothing about the client or the shortest timeout changes. *)
Definition client_frame (c c' : Ctx) : Prop :=
  client_ (this c') = client_ (this c)
  ∧ shortestTimeout (this c') = shortestTimeout (this c).

(** Every member function that is run on a live destination is in [R]. *)
Definition members_sat (R : Ctx → Ctx → Prop) : Prop :=
  (∀ reply ctx now, sat R (onReply reply ctx now))
  ∧ sat R fire_probe_timer
  ∧ sat R resetInactive
  ∧ (∀ timeout, sat R (updateShortestTimeout timeout))
  ∧ sat R probe_task_send
  ∧ (∀ reply, sat R (probe_task_reply reply))
  ∧ sat R client_connected
  ∧ sat R client_socket_error
  ∧ sat R ProxyDestination_dtor.

(** *** Accounting for the probe timers *)

(** Takes the first occurrence of the handle [t] out of the armed timers;
    there is no result when [t] is not armed. *)
Fixpoint disarm (t : asox_timer_t) (ts : list asox_timer_t)
  : option (list asox_timer_t) :=
  match ts with
  | [] => None
  | t' :: ts' =>
      if decide (t' = t) then Some ts'
      else match disarm t ts' with
           | Some r => Some (t' :: r)
           | None => None
           end
  end.

(** The effect of one call on the timers armed for the destination at
    address [a]: [asox_add_timer] arms one more, [asox_remove_timer] takes
    the timer of its handle away and has no result when that timer is not
    armed. *)
Definition timer_step (a : dest_id) (k : Call) (ts : list asox_timer_t)
  : option (list asox_timer_t) :=
  match k with
  | CallAddTimer d t => if decide (d = a) then Some (t :: ts) else Some ts
  | CallRemoveTimer d t => if decide (d = a) then disarm t ts else Some ts
  | _ => Some ts
  end.

Fixpoint timers_from (a : dest_id) (l : list Call) (ts : list asox_timer_t)
  : option (list asox_timer_t) :=
  match l with
  | [] => Some ts
  | k :: l' =>
      match timer_step a k ts with
      | Some ts' => timers_from a l' ts'
      | None => None
      end
  end.

(** The timers that are armed for address [a] after a call history: those
    added and not removed since.  There is no result when the history
    removes a timer that is not armed at that point. *)
Definition armed_timers (a : dest_id) (l : list Call)
  : option (list asox_timer_t) :=
  timers_from a l [].

(** The timers a destination holds a handle of. *)
Definition held_timers (d : ProxyDestination) : list asox_timer_t :=
  option_list (probe_timer d).

(** A member function adds and removes timers only for its own object, and
    when the timers armed for it are those it holds a handle of, this is so
    afterwards. *)
Definition timer_balance (c c' : Ctx) : Prop :=
  self (this c') = self (this c)
  ∧ (∀ b, b ≠ self (this c) →
          armed_timers b (calls c') = armed_timers b (calls c))
  ∧ (armed_timers (self (this c)) (calls c) = Some (held_timers (this c)) →
     armed_timers (self (this c)) (calls c') = Some (held_timers (this c'))).

(** The timers armed for an address are exactly those whose handle the live
    destination at that address holds; live destinations know their own
    address and have a consistent probe scheduler. *)
Definition timers_accounted (w : World) : Prop :=
  (∀ a, armed_timers a (w_calls w)
        = Some match heap w !! a with
               | Some (d, _) => held_timers d
               | None => []
               end)
  ∧ (∀ a d t, heap w !! a = Some (d, t) → self d = a ∧ probe_consistent d).

(** *** The latency average *)

(** The latency average of a destination is the one made with the
    smoothing factor [1.0 / latency_window_size] of the options [o], with
    samples inserted since, most recent first. *)
Definition latency_average (o : McrouterOptions) (d : ProxyDestination) : Prop :=
  ∃ samples : list Z,
    avgLatency (stats_ d)
    = foldr insertSample
        (smooth_make
           (double_div double_one (int_to_double (latency_window_size o))))
        samples.

Definition options_are (o : McrouterOptions) (p : proxy_t) (l : list Call) : Prop :=
  opts p = o.

Definition stop_then_start : M unit :=
  stop_sending_probes;;
  start_sending_probes.

End Destination.

(** ** Collaborators after the specification

    Small instances of the three interfaces, used to run the member
    functions on concrete inputs. *)

Module Model.

(** Modelled from the spec: the reply results named there.  A connect error
    and a protocol violation are hard TKO errors, a timeout is a soft TKO
    error, a remote error is an error of neither kind, and a miss is not an
    error. *)
Inductive res :=
  | res_ok
  | res_notfound
  | res_timeout
  | res_connect_error
  | res_bad_command
  | res_remote_error.

#[global] Instance res_eq_dec : EqDecision res.
Proof. solve_decision. Defined.

#[global] Instance reply_api : McReplyApi res := {|
  mc_res_ok := res_ok;
  mc_res_connect_error := res_connect_error;
  res_isError r :=
    match r with res_ok | res_notfound => false | _ => true end;
  res_isHardTkoError r :=
    match r with res_connect_error | res_bad_command => true | _ => false end;
  res_isSoftTkoError r :=
    match r with res_timeout => true | _ => false end;
|}.

Inductive Classification := Healthy | SoftTko | HardTko.

(** Modelled from the spec: the failure counter shared by the destinations
    of one endpoint (TkoTracker.h is not part of this file). *)
Record FailureCounter := {
  hard_threshold : Z;
  soft_threshold : Z;
  hardFailures : Z;
  softFailures : gmap dest_id Z;
  classification : Classification;
  responsible : option dest_id;
  hardTkos : Z;
  softTkos : Z;
}.

Definition fc_recordHardFailure (d : dest_id) (fc : FailureCounter)
  : bool * FailureCounter :=
  let n := hardFailures fc + 1 in
  match classification fc with
  | HardTko =>
      (false,
       {| hard_threshold := hard_threshold fc; soft_threshold := soft_threshold fc;
          hardFailures := n; softFailures := softFailures fc;
          classification := HardTko; responsible := responsible fc;
          hardTkos := hardTkos fc; softTkos := softTkos fc |})
  | cl =>
      if hard_threshold fc <=? n then
        (true,
         {| hard_threshold := hard_threshold fc; soft_threshold := soft_threshold fc;
            hardFailures := n; softFailures := softFailures fc;
            classification := HardTko; responsible := Some d;
            hardTkos := hardTkos fc + 1;
            softTkos := match cl with
                        | SoftTko => softTkos fc - 1
                        | _ => softTkos fc
                        end |})
      else
        (false,
         {| hard_threshold := hard_threshold fc; soft_threshold := soft_threshold fc;
            hardFailures := n; softFailures := softFailures fc;
            classification := cl; responsible := responsible fc;
            hardTkos := hardTkos fc; softTkos := softTkos fc |})
  end.

Definition fc_recordSoftFailure (d : dest_id) (fc : FailureCounter)
  : bool * FailureCounter :=
  let n := default 0 (softFailures fc !! d) + 1 in
  match classification fc with
  | Healthy =>
      if soft_threshold fc <=? n then
        (true,
         {| hard_threshold := hard_threshold fc; soft_threshold := soft_threshold fc;
            hardFailures := hardFailures fc;
            softFailures := <[d := n]> (softFailures fc);
            classification := SoftTko; responsible := Some d;
            hardTkos := hardTkos fc; softTkos := softTkos fc + 1 |})
      else
        (false,
         {| hard_threshold := hard_threshold fc; soft_threshold := soft_threshold fc;
            hardFailures := hardFailures fc;
            softFailures := <[d := n]> (softFailures fc);
            classification := Healthy; responsible := responsible fc;
            hardTkos := hardTkos fc; softTkos := softTkos fc |})
  | cl =>
      (false,
       {| hard_threshold := hard_threshold fc; soft_threshold := soft_threshold fc;
          hardFailures := hardFailures fc;
          softFailures := <[d := n]> (softFailures fc);
          classification := cl; responsible := responsible fc;
          hardTkos := hardTkos fc; softTkos := softTkos fc |})
  end.

Definition fc_recordSuccess (d : dest_id) (fc : FailureCounter) : FailureCounter :=
  if bool_decide (responsible fc = Some d) then
    {| hard_threshold := hard_threshold fc; soft_threshold := soft_threshold fc;
       hardFailures := 0; softFailures := ∅;
       classification := Healthy; responsible := None;
       hardTkos := match classification fc with
                   | HardTko => hardTkos fc - 1
                   | _ => hardTkos fc
                   end;
       softTkos := match classification fc with
                   | SoftTko => softTkos fc - 1
                   | _ => softTkos fc
                   end |}
  else
    {| hard_threshold := hard_threshold fc; soft_threshold := soft_threshold fc;
       hardFailures := hardFailures fc;
       softFailures := delete d (softFailures fc);
       classification := classification fc; responsible := responsible fc;
       hardTkos := hardTkos fc; softTkos := softTkos fc |}.

Definition fc_removeDestination (d : dest_id) (fc : FailureCounter) : FailureCounter :=
  {| hard_threshold := hard_threshold fc; soft_threshold := soft_threshold fc;
     hardFailures := hardFailures fc;
     softFailures := delete d (softFailures fc);
     classification := classification fc;
     responsible := if bool_decide (responsible fc = Some d)
                    then None else responsible fc;
     hardTkos := hardTkos fc; softTkos := softTkos fc |}.

#[global] Instance tracker_api : TkoTrackerApi FailureCounter := {|
  recordSuccess := fc_recordSuccess;
  recordHardFailure := fc_recordHardFailure;
  recordSoftFailure := fc_recordSoftFailure;
  tko_removeDestination := fc_removeDestination;
  isTko fc := match classification fc with Healthy => false | _ => true end;
  isHardTko fc := match classification fc with HardTko => true | _ => false end;
  isSoftTko fc := match classification fc with SoftTko => true | _ => false end;
  globalTkos fc := (hardTkos fc, softTkos fc);
|}.

(** Modelled from the spec: an exponential moving average with a fixed
    smoothing factor (ExponentialSmoothData.h is not part of this file),
    computed in binary64. *)
Record Ema := { factor : double; current : double }.

#[global] Instance smooth_api : SmoothApi Ema := {|
  smooth_make f := {| factor := f; current := int_to_double 0 |};
  insertSample x e :=
    {| factor := factor e;
       current :=
         double_add (double_mul (factor e) (int_to_double x))
           (double_mul (double_sub double_one (factor e)) (current e)) |};
  value := current;
|}.

(** *** Concrete inputs *)

(** Hard threshold 1, soft threshold 3, initial probe delay 1 ms. *)
Definition options (max_ms : Z) : McrouterOptions :=
  {| disable_tko_tracking := false;
     probe_delay_initial_ms := 1;
     probe_delay_max_ms := max_ms;
     latency_window_size := 10;
     target_max_inflight_requests := 0;
     target_max_pending_requests := 0 |}.

Definition healthy : FailureCounter :=
  {| hard_threshold := 1; soft_threshold := 3; hardFailures := 0;
     softFailures := ∅; classification := Healthy; responsible := None;
     hardTkos := 0; softTkos := 0 |}.

(** [rand()] returning [k] every time, with glibc's [RAND_MAX]. *)
Definition constant_rand (k : Z) : rand_source :=
  {| RAND_MAX := 2147483647; draws := λ _, k |}.

Definition the_proxy (max_ms : Z) : @proxy_t res :=
  {| magic := 7; opts := options max_ms; stats := λ _, 0;
     tko_events := []; has_destinationMap := true |}.

(** A freshly constructed destination at address 1 with a server timeout of
    200 ms, and the proxy after its construction. *)
Definition fresh (max_ms : Z) : @Ctx res FailureCounter Ema :=
  {| this := (ProxyDestination_ctor 1 200 (the_proxy max_ms)).1;
     proxy := (ProxyDestination_ctor 1 200 (the_proxy max_ms)).2;
     shared_tko := healthy;
     calls := [];
     rng := constant_rand 0;
     rng_pos := O |}.

(** The same destination holding a client whose connection is up. *)
Definition connected (max_ms : Z) : @Ctx res FailureCounter Ema :=
  match bind getAsyncMcClient (λ _, client_connected) (fresh max_ms) with
  | Ok (_, c) => c
  | Abort => fresh max_ms
  end.

(** The same destination after a connect error made it responsible for a
    hard TKO: it is sending probes and its first timer is armed. *)
Definition probing (max_ms : Z) : @Ctx res FailureCounter Ema :=
  match handle_tko {| result := res_connect_error |} false (fresh max_ms) with
  | Ok (_, c) => c
  | Abort => fresh max_ms
  end.

(** Two destinations are created; the first gets a client, connects and
    loses the connection; the second gets a client, connects, is reset as
    inactive and destroyed. *)
Definition two_destinations : list (@Event res FailureCounter) :=
  [EvCreate 1 200 healthy; EvCreate 2 300 healthy;
   EvProbeSend 1; EvConnected 1; EvSocketError 1;
   EvProbeSend 2; EvConnected 2; EvResetInactive 2; EvDestroy 2].

(** The destination [probing] with the probe timer expired once, so that a
    probe has been sent. *)
Definition probed (max_ms : Z) : @Ctx res FailureCounter Ema :=
  match fire_probe_timer (probing max_ms) with
  | Ok (_, c) => c
  | Abort => probing max_ms
  end.

(** The destination [connected] during [resetInactive], when [closeNow]
    runs the down callback. *)
Definition being_reset (max_ms : Z) : @Ctx res FailureCounter Ema :=
  set_this (set_resetting true (this (connected max_ms))) (connected max_ms).

(** The destination [fresh] with a backoff that has reached 6 ms. *)
Definition backed_off : @Ctx res FailureCounter Ema :=
  set_this (set_probe_delay_next_ms 6 (this (fresh 1000))) (fresh 1000).

(** The destination [fresh] after two soft failures in a row, one short of
    the soft threshold. *)
Definition soft_twice : @Ctx res FailureCounter Ema :=
  set_shared_tko
    (fc_recordSoftFailure 1 (fc_recordSoftFailure 1 healthy).2).2
    (fresh 1000).

(** The options of [options] with TKO tracking disabled. *)
Definition options_off : McrouterOptions :=
  {| disable_tko_tracking := true;
     probe_delay_initial_ms := 1;
     probe_delay_max_ms := 1000;
     latency_window_size := 10;
     target_max_inflight_requests := 0;
     target_max_pending_requests := 0 |}.

(** A destination is taken out by a connect error, its probe timer expires
    and the probe is sent over a new client; a shorter timeout is then
    asked for.  A second destination answers a request. *)
Definition one_probing : list (@Event res FailureCounter) :=
  [EvCreate 1 200 healthy; EvCreate 2 300 healthy;
   EvOnReply 1 {| result := res_connect_error |}
     {| startTime := 0; endTime := 0 |} 500;
   EvTimer 1; EvProbeSend 1; EvConnected 1;
   EvUpdateShortestTimeout 1 50;
   EvOnReply 2 {| result := res_ok |} {| startTime := 10; endTime := 0 |} 90].

(** Replies and a lost connection on a destination. *)
Definition errors_only : list (@Event res FailureCounter) :=
  [EvCreate 1 200 healthy;
   EvOnReply 1 {| result := res_connect_error |}
     {| startTime := 0; endTime := 0 |} 500;
   EvProbeSend 1; EvConnected 1; EvSocketError 1;
   EvOnReply 1 {| result := res_timeout |} {| startTime := 0; endTime := 0 |} 700;
   EvOnReply 1 {| result := res_ok |} {| startTime := 0; endTime := 0 |} 900].

(** A destination is taken out by a connect error, sends one probe and is
    destroyed while it is still sending probes. *)
Definition destroyed_while_probing : list (@Event res FailureCounter) :=
  [EvCreate 1 200 healthy;
   EvOnReply 1 {| result := res_connect_error |}
     {| startTime := 0; endTime := 0 |} 500;
   EvTimer 1; EvProbeSend 1;
   EvDestroy 1].

End Model.

(** * Properties *)

(** ** Truncation and jitter *)

Lemma trunc_nonneg (q : Q) : (0 <= q)%Q → trunc q = Qfloor q.
Proof.
  destruct q as [n d]. unfold trunc, Qfloor, Qle. simpl. intros Hq.
  apply Z.quot_div_nonneg; lia.
Qed.

Lemma trunc_between (a b : Z) (q : Q) :
  0 ≤ a → (inject_Z a <= q)%Q → (q <= inject_Z b)%Q → a ≤ trunc q ≤ b.
Proof.
  intros Ha Hl Hu.
  assert (0 <= q)%Q as Hq.
  { apply Qle_trans with (inject_Z a); [|done]. change 0%Q with (inject_Z 0).
    by rewrite <- Zle_Qle. }
  rewrite trunc_nonneg by done. split.
  - rewrite <- (Qfloor_Z a). by apply Qfloor_resp_le.
  - rewrite <- (Qfloor_Z b). by apply Qfloor_resp_le.
Qed.

Lemma double_to_uint64_nonneg (q : Q) :
  (0 <= q)%Q → double_to_uint64 q = trunc q.
Proof.
  intros Hq. unfold double_to_uint64.
  destruct (Z.ltb_spec (trunc q) 0) as [Hneg|]; [|done].
  rewrite trunc_nonneg in Hneg by done.
  pose proof (Qfloor_resp_le _ _ Hq) as Hfl. change (Qfloor 0) with 0 in Hfl.
  lia.
Qed.

Lemma rand_ratio_unit (rand_max k : Z) :
  0 < rand_max → 0 ≤ k ≤ rand_max →
  (0 <= inject_Z k / inject_Z rand_max <= 1)%Q.
Proof.
  intros Hm [Hk0 Hk1].
  assert (0 < inject_Z rand_max)%Q as Hpos.
  { change 0%Q with (inject_Z 0). by rewrite <- Zlt_Qlt. }
  split.
  - apply Qle_shift_div_l; [done|]. rewrite Qmult_0_l.
    change 0%Q with (inject_Z 0). by rewrite <- Zle_Qle.
  - apply Qle_shift_div_r; [done|]. rewrite Qmult_1_l. by rewrite <- Zle_Qle.
Qed.

Lemma tmo_jitter_pct_range (rand_max k : Z) :
  0 < rand_max → 0 ≤ k ≤ rand_max →
  (kProbeJitterMin <= tmo_jitter_pct rand_max k <= kProbeJitterMax)%Q.
Proof.
  intros Hm Hk. destruct (rand_ratio_unit rand_max k Hm Hk) as [H0 H1].
  unfold tmo_jitter_pct, kProbeJitterDelta, kProbeJitterMin, kProbeJitterMax.
  set (r := (inject_Z k / inject_Z rand_max)%Q) in *. split; lra.
Qed.

Lemma jittered_delay_us_range (rand_max k delay_ms : Z) :
  0 < rand_max → 0 ≤ k ≤ rand_max → 0 ≤ delay_ms →
  delay_ms * 1050 ≤ jittered_delay_us rand_max k delay_ms ≤ delay_ms * 1500.
Proof.
  intros Hm Hk Hd. destruct (tmo_jitter_pct_range rand_max k Hm Hk) as [H0 H1].
  unfold kProbeJitterMin, kProbeJitterMax in *.
  assert (0 <= inject_Z delay_ms)%Q as Hdq.
  { change 0%Q with (inject_Z 0). by rewrite <- Zle_Qle. }
  unfold jittered_delay_us. set (j := tmo_jitter_pct rand_max k) in *.
  rewrite double_to_uint64_nonneg by nra.
  apply trunc_between; [lia| |].
  - rewrite inject_Z_mult. change (inject_Z 1050) with 1050%Q. nra.
  - rewrite inject_Z_mult. change (inject_Z 1500) with 1500%Q. nra.
Qed.

Lemma jittered_delay_us_trunc (rand_max k delay_ms : Z) :
  0 < rand_max → 0 ≤ k ≤ rand_max → 0 ≤ delay_ms →
  jittered_delay_us rand_max k delay_ms
  = trunc (inject_Z delay_ms * 1000 * (1 + tmo_jitter_pct rand_max k))%Q.
Proof.
  intros Hm Hk Hd. destruct (tmo_jitter_pct_range rand_max k Hm Hk) as [H0 H1].
  unfold kProbeJitterMin, kProbeJitterMax in *.
  assert (0 <= inject_Z delay_ms)%Q as Hdq.
  { change 0%Q with (inject_Z 0). by rewrite <- Zle_Qle. }
  unfold jittered_delay_us. set (j := tmo_jitter_pct rand_max k) in *.
  apply double_to_uint64_nonneg. nra.
Qed.

Section Properties.
Context {mc_res_t : Type} `{!McReplyApi mc_res_t}.
Context {T : Type} `{!TkoTrackerApi T}.
Context {E : Type} `{!SmoothApi E}.

Local Abbreviation Ctx := (@Ctx mc_res_t T E).
Local Abbreviation tko_frame := (tko_frame (mc_res_t:=mc_res_t) (T:=T) (E:=E)).
Local Abbreviation World := (@World mc_res_t T E).
Local Abbreviation Heap := (gmap dest_id (@ProxyDestination mc_res_t E * T)).
Local Abbreviation ProxyDestination := (@ProxyDestination mc_res_t E).
Local Abbreviation proxy_t := (@proxy_t mc_res_t).
Local Abbreviation McReply := (@McReply mc_res_t).
Local Abbreviation gauge_frame :=
  (gauge_frame (mc_res_t:=mc_res_t) (T:=T) (E:=E)).

(** Unfolds the monad and the wrappers around it. *)
Ltac mred :=
  unfold start_then_stop, assert_proxy_magic, FBI_ASSERT, CHECK, rand, call,
    modify_this, modify_proxy, modify, get, abort, bind, ret in *;
  cbn in *.

Lemma timer_us_armed_timer (c : Ctx) (d : Z) :
  timer_us (armed_timer c d)
  = jittered_delay_us (RAND_MAX (rng c)) (draws (rng c) (rng_pos c)) d.
Proof.
  unfold timer_us, armed_timer. cbn.
  pose proof (Z.div_mod (jittered_delay_us (RAND_MAX (rng c))
    (draws (rng c) (rng_pos c)) d) 1000000). lia.
Qed.

Lemma armed_timer_range (c : Ctx) (d : Z) :
  rand_wf (rng c) → 0 ≤ d →
  d * 1050 ≤ timer_us (armed_timer c d) ≤ d * 1500.
Proof.
  intros [Hm Hk] Hd. rewrite timer_us_armed_timer.
  by apply jittered_delay_us_range.
Qed.

Lemma schedule_next_probe_ok (c : Ctx) :
  scheduler_ready c →
  1 ≤ probe_delay_next_ms (this c) →
  schedule_next_probe c =
    Ok (tt,
        {| this :=
             set_probe_timer (Some (armed_timer c (probe_delay_next_ms (this c))))
               (set_probe_delay_next_ms
                  (next_probe_delay (probe_delay_max_ms (opts (proxy c)))
                     (probe_delay_next_ms (this c)))
                  (this c));
           proxy := proxy c;
           shared_tko := shared_tko c;
           calls := calls c ++ [CallAddTimer (self (this c))
                      (armed_timer c (probe_delay_next_ms (this c)))];
           rng := rng c;
           rng_pos := S (rng_pos c) |}).
Proof.
  intros (Hmagic & Htko & Htimer & Hm & Hk) Hd.
  pose proof (jittered_delay_us_range (RAND_MAX (rng c))
    (draws (rng c) (rng_pos c)) (probe_delay_next_ms (this c)) Hm
    (Hk (rng_pos c)) ltac:(lia)) as [Hlo _].
  unfold schedule_next_probe, armed_timer. mred.
  rewrite Hmagic, Z.eqb_refl, Htko. cbn.
  destruct (Z.gtb_spec (jittered_delay_us (RAND_MAX (rng c))
    (draws (rng c) (rng_pos c)) (probe_delay_next_ms (this c))) 0); [|lia].
  cbn. rewrite Htimer. cbn. reflexivity.
Qed.

Lemma start_sending_probes_ok (c : Ctx) :
  sending_probes (this c) = false →
  scheduler_ready c →
  1 ≤ probe_delay_initial_ms (opts (proxy c)) →
  start_sending_probes c =
    Ok (tt,
        {| this :=
             set_probe_timer
               (Some (armed_timer c (probe_delay_initial_ms (opts (proxy c)))))
               (set_probe_delay_next_ms
                  (next_probe_delay (probe_delay_max_ms (opts (proxy c)))
                     (probe_delay_initial_ms (opts (proxy c))))
                  (set_sending_probes true (this c)));
           proxy := proxy c;
           shared_tko := shared_tko c;
           calls := calls c ++ [CallAddTimer (self (this c))
                      (armed_timer c (probe_delay_initial_ms (opts (proxy c))))];
           rng := rng c;
           rng_pos := S (rng_pos c) |}).
Proof.
  intros Hsp Hready Hinit.
  unfold start_sending_probes. mred. rewrite Hsp. cbn.
  rewrite schedule_next_probe_ok; [reflexivity| |cbn; lia].
  destruct Hready as (? & ? & ? & ?). unfold scheduler_ready. cbn. done.
Qed.

Lemma stop_sending_probes_ok (c : Ctx) :
  ∃ c', stop_sending_probes c = Ok (tt, c')
        ∧ this c' = set_probe_timer None
                      (set_sending_probes false (set_probesSent_ 0 (this c)))
        ∧ proxy c' = proxy c
        ∧ shared_tko c' = shared_tko c
        ∧ calls c' = calls c ++ match probe_timer (this c) with
                                | Some t => [CallRemoveTimer (self (this c)) t]
                                | None => []
                                end.
Proof.
  unfold stop_sending_probes. mred.
  destruct c as [[] ? ? ? ? ?]; cbn.
  destruct probe_timer0; cbn; eexists; repeat split; cbn; try done.
  by rewrite app_nil_r.
Qed.

Lemma fire_probe_timer_ok (c : Ctx) (t : asox_timer_t) :
  magic (proxy c) = proxy_magic (this c) →
  disable_tko_tracking (opts (proxy c)) = false →
  rand_wf (rng c) →
  sending_probes (this c) = true →
  probe_timer (this c) = Some t →
  1 ≤ probe_delay_next_ms (this c) →
  ∃ c', fire_probe_timer c = Ok (tt, c')
        ∧ probe_timer (this c')
          = Some (armed_timer c (probe_delay_next_ms (this c)))
        ∧ probe_delay_next_ms (this c')
          = next_probe_delay (probe_delay_max_ms (opts (proxy c)))
              (probe_delay_next_ms (this c))
        ∧ sending_probes (this c') = true
        ∧ proxy_magic (this c') = proxy_magic (this c)
        ∧ proxy c' = proxy c
        ∧ rng c' = rng c
        ∧ rng_pos c' = S (rng_pos c).
Proof.
  intros Hmagic Htko Hwf Hsp Htimer Hd.
  unfold fire_probe_timer, on_timer. mred.
  rewrite Htimer, Hmagic, Z.eqb_refl. cbn.
  rewrite bool_decide_eq_true_2 by done. cbn. rewrite Hsp.
  destruct (probe_req (this c)); cbn;
    (rewrite schedule_next_probe_ok;
       [|unfold scheduler_ready; cbn; done|cbn; lia]);
    (eexists; split; [reflexivity|]);
    unfold armed_timer; cbn; by repeat split.
Qed.

Lemma next_probe_delay_backoff (n : nat) :
  next_probe_delay 10 (backoff_1_10 n) = backoff_1_10 (S n).
Proof.
  do 6 (destruct n as [|n]; [reflexivity|]). destruct n; reflexivity.
Qed.

Lemma backoff_1_10_pos (n : nat) : 1 ≤ backoff_1_10 n.
Proof.
  do 6 (destruct n as [|n]; [cbn; lia|]). destruct n; cbn; lia.
Qed.

Lemma probe_episode_state (c : Ctx) (n : nat) :
  probe_delay_initial_ms (opts (proxy c)) = 1 →
  probe_delay_max_ms (opts (proxy c)) = 10 →
  sending_probes (this c) = false →
  scheduler_ready c →
  ∃ c', probe_episode n c = Ok (tt, c')
        ∧ probe_timer (this c')
          = Some {| tv_sec :=
                      jittered_delay_us (RAND_MAX (rng c))
                        (draws (rng c) (rng_pos c + n)) (backoff_1_10 n) / 1000000;
                    tv_usec :=
                      jittered_delay_us (RAND_MAX (rng c))
                        (draws (rng c) (rng_pos c + n)) (backoff_1_10 n)
                      mod 1000000 |}
        ∧ probe_delay_next_ms (this c') = backoff_1_10 (S n)
        ∧ sending_probes (this c') = true
        ∧ proxy_magic (this c') = proxy_magic (this c)
        ∧ proxy c' = proxy c
        ∧ rng c' = rng c
        ∧ rng_pos c' = (rng_pos c + S n)%nat.
Proof.
  intros Hinit Hmax Hsp Hready. induction n as [|n IH].
  - cbn [probe_episode]. rewrite start_sending_probes_ok by (done || lia).
    eexists; split; [reflexivity|]. cbn. rewrite Hinit, Hmax.
    unfold armed_timer. rewrite Nat.add_0_r, Nat.add_1_r. by repeat split.
  - destruct IH as (c1 & Hrun & Ht & Hd & Hs & Hpm & Hp & Hr & Hpos).
    destruct Hready as (Hmagic & Htko & _ & Hwf).
    destruct (fire_probe_timer_ok c1 _ ltac:(by rewrite Hp, Hpm)
      ltac:(by rewrite Hp) ltac:(by rewrite Hr) Hs Ht
      ltac:(rewrite Hd; apply backoff_1_10_pos))
      as (c2 & Hfire & Ht2 & Hd2 & Hs2 & Hpm2 & Hp2 & Hr2 & Hpos2).
    exists c2. cbn [probe_episode]. unfold bind. rewrite Hrun, Hfire.
    split; [done|]. rewrite Ht2, Hd2, Hd, Hp, Hmax, next_probe_delay_backoff.
    unfold armed_timer. rewrite Hr, Hpos.
    repeat split; try congruence. rewrite Hpos2, Hpos. lia.
Qed.

Lemma timer_ms_between (t : asox_timer_t) (a b : Z) :
  a ≤ timer_us t ≤ b →
  (inject_Z a / 1000 <= timer_ms t <= inject_Z b / 1000)%Q.
Proof.
  intros [Ha Hb]. rewrite Zle_Qle in Ha, Hb. unfold timer_ms, Qdiv.
  split; (apply Qmult_le_compat_r; [done|]); by compute.
Qed.

(** C2, as the code has it: with [probe_delay_initial_ms = 1] the first
    probe timer armed by [start_sending_probes] is set to the initial delay
    of 1 ms times the jitter factor, hence to a delay between 1 × 1.05 ms
    and 1 × 1.50 ms; the doubled value is only what is kept for the second
    timer. *)
Theorem first_probe_delay_initial_1 (c : Ctx) :
  probe_delay_initial_ms (opts (proxy c)) = 1 →
  sending_probes (this c) = false →
  scheduler_ready c →
  ∃ c' t, start_sending_probes c = Ok (tt, c')
          ∧ probe_timer (this c') = Some t
          ∧ (1 * (105 # 100) <= timer_ms t <= 1 * (150 # 100))%Q
          ∧ probe_delay_next_ms (this c')
            = Z.min 2 (probe_delay_max_ms (opts (proxy c))).
Proof.
  intros Hinit Hsp Hready.
  rewrite start_sending_probes_ok by (done || lia).
  eexists _, _. split; [reflexivity|]. cbn. split; [reflexivity|].
  rewrite Hinit. split.
  - destruct Hready as (_ & _ & _ & Hm & Hk).
    pose proof (jittered_delay_us_range (RAND_MAX (rng c))
      (draws (rng c) (rng_pos c)) 1 Hm (Hk (rng_pos c)) ltac:(lia)) as Hr.
    rewrite <- timer_us_armed_timer in Hr.
    destruct (timer_ms_between _ (1 * 1050) (1 * 1500) Hr) as [Hlo Hhi].
    split.
    + eapply Qle_trans; [|exact Hlo]. by compute.
    + eapply Qle_trans; [exact Hhi|]. by compute.
  - unfold next_probe_delay. cbn.
    destruct (Z.gtb_spec 2 (probe_delay_max_ms (opts (proxy c)))); lia.
Qed.

(** C3: with [probe_delay_initial_ms = 1] and [probe_delay_max_ms = 10],
    the [n]-th call of [schedule_next_probe] in a probing episode (the one
    made by [start_sending_probes] being call 0, the others made by
    [on_timer]) arms a timer whose delay is the [n]-th term of
    1, 2, 3, 4, 6, 9, 10, 10, ... in milliseconds, multiplied by a jitter
    factor between 1.05 and 1.50 and truncated to whole microseconds. *)
Theorem probe_delays_initial_1_max_10 (c : Ctx) (n : nat) :
  probe_delay_initial_ms (opts (proxy c)) = 1 →
  probe_delay_max_ms (opts (proxy c)) = 10 →
  sending_probes (this c) = false →
  scheduler_ready c →
  ∃ c' t f,
    probe_episode n c = Ok (tt, c')
    ∧ probe_timer (this c') = Some t
    ∧ (105 # 100 <= f <= 150 # 100)%Q
    ∧ timer_us t = trunc (inject_Z (backoff_1_10 n) * 1000 * f)%Q
    ∧ probe_delay_next_ms (this c') = backoff_1_10 (S n).
Proof.
  intros Hinit Hmax Hsp Hready.
  destruct (probe_episode_state c n Hinit Hmax Hsp Hready)
    as (c' & Hrun & Ht & Hd & _).
  destruct Hready as (_ & _ & _ & Hm & Hk).
  destruct (tmo_jitter_pct_range (RAND_MAX (rng c))
    (draws (rng c) (rng_pos c + n)) Hm (Hk _)) as [Hlo Hhi].
  unfold kProbeJitterMin, kProbeJitterMax in *.
  eexists c', _, (1 + tmo_jitter_pct (RAND_MAX (rng c))
                        (draws (rng c) (rng_pos c + n)))%Q.
  split; [exact Hrun|]. split; [exact Ht|]. split; [split; lra|].
  split; [|exact Hd].
  rewrite <- jittered_delay_us_trunc
    by (done || pose proof (backoff_1_10_pos n); lia).
  unfold timer_us. cbn [tv_sec tv_usec].
  set (us := jittered_delay_us _ _ _).
  pose proof (Z.div_mod us 1000000). lia.
Qed.

(** C6: from a scheduler that is not sending probes, [start_sending_probes]
    followed by [stop_sending_probes] leaves the flag clear, no timer armed
    and [probesSent_ = 0]; the timer that was armed in between is the one
    that is removed. *)
Theorem start_then_stop_restores_scheduler (c : Ctx) :
  sending_probes (this c) = false →
  scheduler_ready c →
  1 ≤ probe_delay_initial_ms (opts (proxy c)) →
  ∃ c' t, start_then_stop c = Ok (tt, c')
          ∧ sending_probes (this c') = false
          ∧ probe_timer (this c') = None
          ∧ probesSent_ (this c') = 0
          ∧ calls c' = calls c ++ [CallAddTimer (self (this c)) t;
                                   CallRemoveTimer (self (this c)) t].
Proof.
  intros Hsp Hready Hinit. unfold start_then_stop, bind.
  rewrite start_sending_probes_ok by done.
  match goal with |- context [stop_sending_probes ?c1] =>
    destruct (stop_sending_probes_ok c1) as (c' & Hstop & Hthis & _ & _ & Hcalls)
  end.
  rewrite Hstop. eexists c', _. split; [reflexivity|].
  rewrite Hthis, Hcalls. cbn. rewrite <- app_assoc. by repeat split.
Qed.

(** C1: a reply that is not an error, handed to [handle_tko] with
    [is_probe_req = false] while [sending_probes] is set, changes nothing at
    all: the tracker is as before and the call history has no new entry (so
    [recordSuccess] was not called), no TKO event was logged, and the flag
    and the armed probe timer are untouched. *)
Theorem handle_tko_success_while_probing (reply : McReply) (c : Ctx) :
  isError reply = false →
  sending_probes (this c) = true →
  handle_tko reply false c = Ok (tt, c).
Proof.
  intros Herr Hsp. unfold handle_tko. mred.
  destruct (resetting (this c) || disable_tko_tracking (opts (proxy c)));
    [done|].
  by rewrite Herr, Hsp.
Qed.

(** C5: [on_down] with [resetting] set moves the local state to [kClosed];
    the tracker, the call history (no [recordHardFailure], no
    [recordSoftFailure]) and the TKO event log stay as they were. *)
Theorem on_down_while_resetting (c : Ctx) :
  resetting (this c) = true →
  magic (proxy c) = proxy_magic (this c) →
  state (stats_ (this c)) ≠ kTko →
  ∃ c', on_down c = Ok (tt, c')
        ∧ state (stats_ (this c')) = kClosed
        ∧ shared_tko c' = shared_tko c
        ∧ calls c' = calls c
        ∧ tko_events (proxy c') = tko_events (proxy c)
        ∧ sending_probes (this c') = sending_probes (this c)
        ∧ probe_timer (this c') = probe_timer (this c).
Proof.
  intros Hres Hmagic Hst. unfold on_down, setState. mred.
  rewrite Hmagic, Z.eqb_refl, Hres. cbn.
  destruct (state (stats_ (this c))) eqn:Hs; try done;
    cbn; eexists; (split; [reflexivity|]); cbn; by rewrite ?Hs.
Qed.

(** C7: [updateShortestTimeout] always returns; a zero argument changes
    nothing; otherwise the stored timeout becomes the argument if it was
    unset (zero) and the minimum of both if it was set, so a timeout that
    is set never grows; and exactly when the stored value changes, an
    existing client is given the new value as its write timeout. *)
Theorem updateShortestTimeout_min (timeout : Z) (c : Ctx) :
  ∃ c', updateShortestTimeout timeout c = Ok (tt, c')
        ∧ shortestTimeout (this c')
          = (if timeout =? 0 then shortestTimeout (this c)
             else if shortestTimeout (this c) =? 0 then timeout
             else Z.min (shortestTimeout (this c)) timeout)
        ∧ (shortestTimeout (this c) ≠ 0 →
           shortestTimeout (this c') ≤ shortestTimeout (this c))
        ∧ (timeout = 0 → c' = c)
        ∧ (shortestTimeout (this c') = shortestTimeout (this c) → c' = c)
        ∧ (shortestTimeout (this c') ≠ shortestTimeout (this c) →
           match client_ (this c) with
           | Some cl =>
               client_ (this c')
               = Some {| writeTimeout := shortestTimeout (this c');
                         statusCallbacks := statusCallbacks cl;
                         conn_up := conn_up cl;
                         throttle := throttle cl |}
               ∧ calls c'
                 = calls c ++ [CallUpdateWriteTimeout (self (this c))
                                 (shortestTimeout (this c'))]
           | None => client_ (this c') = None ∧ calls c' = calls c
           end).
Proof.
  unfold updateShortestTimeout, client_updateWriteTimeout, with_client. mred.
  destruct (Z.eqb_spec timeout 0) as [->|Hne].
  { exists c. repeat split; intros; done || lia. }
  destruct (Z.eqb_spec (shortestTimeout (this c)) 0) as [Hz|Hnz]; cbn.
  - destruct (client_ (this c)) eqn:Hcl; cbn; rewrite ?Hcl; cbn; eexists;
      (split; [reflexivity|]); cbn; rewrite ?Hcl;
      repeat split; intros; done || lia.
  - destruct (Z.gtb_spec (shortestTimeout (this c)) timeout); cbn.
    + destruct (client_ (this c)) eqn:Hcl; cbn; rewrite ?Hcl; cbn;
        eexists; (split; [reflexivity|]); cbn; rewrite ?Hcl;
        repeat split; intros; done || lia.
    + exists c. repeat split; intros; done || lia.
Qed.

(** C9: [resetInactive] returns with the client handle cleared, and calling
    it again right away returns the very same state: nothing is written,
    nothing is called ([closeNow], the only statement that runs while
    [resetting] is set, is not reached) and no callback runs. *)
Theorem resetInactive_idempotent (c : Ctx) :
  magic (proxy c) = proxy_magic (this c) →
  state (stats_ (this c)) ≠ kTko →
  ∃ c1, resetInactive c = Ok (tt, c1)
        ∧ client_ (this c1) = None
        ∧ resetInactive c1 = Ok (tt, c1).
Proof.
  intros Hmagic Hst.
  unfold resetInactive, client_closeNow, with_client, on_down, setState.
  mred.
  destruct c as [[? pm ? [st ? ?] cl ? ? ? ? ? ?] [m ? ? ? ?] ? ? ? ?].
  cbn in *. subst m.
  destruct cl as [[? cb up ?]|]; cbn; rewrite ?Z.eqb_refl; cbn.
  - destruct up, cb, st; try done; cbn; rewrite ?Z.eqb_refl; cbn;
      eexists; (split; [reflexivity|]); cbn; by rewrite ?Z.eqb_refl.
  - eexists; (split; [reflexivity|]); cbn; by rewrite ?Z.eqb_refl.
Qed.

(** C10: the destructor of a destination that is sending probes appends
    exactly one event to the TKO log, a [RemoveFromConfig] with result
    [mc_res_ok] that still carries the number of probes sent, and then
    stops probing: the flag is cleared, [probesSent_] is zero and an armed
    timer has been removed.  The destructor of a destination that is not
    sending probes appends no event. *)
Theorem dtor_RemoveFromConfig (c : Ctx) :
  state (stats_ (this c)) ≠ kTko →
  ∃ c', ProxyDestination_dtor c = Ok (tt, c')
        ∧ if sending_probes (this c) then
            (∃ e, tko_events (proxy c') = tko_events (proxy c) ++ [e]
                  ∧ event e = RemoveFromConfig
                  ∧ log_result e = mc_res_ok
                  ∧ log_probesSent e = probesSent_ (this c))
            ∧ sending_probes (this c') = false
            ∧ probe_timer (this c') = None
            ∧ probesSent_ (this c') = 0
            ∧ (∀ t, probe_timer (this c) = Some t →
                    last (calls c') = Some (CallRemoveTimer (self (this c)) t))
          else
            tko_events (proxy c') = tko_events (proxy c)
            ∧ sending_probes (this c') = false
            ∧ probe_timer (this c') = probe_timer (this c)
            ∧ probesSent_ (this c') = probesSent_ (this c).
Proof.
  intros Hst.
  unfold ProxyDestination_dtor, shared_removeDestination, onTkoEvent,
    stop_sending_probes, client_setStatusCallbacks, client_closeNow,
    with_client.
  mred.
  destruct c as [[? ? ? [st ? ?] cl ? sp ? pt ? ?] [? ? ? ? dm] ? ? ? ?].
  cbn in *.
  destruct dm, cl as [[? ? ? ?]|], sp, pt, st; try done; cbn;
    rewrite ?andb_false_r; cbn;
    eexists; (split; [reflexivity|]); cbn;
    repeat split; eauto; intros; simplify_eq; by rewrite ?last_snoc.
Qed.

(** ** Framing *)

Section Frame.
Context (R : Ctx → Ctx → Prop) `{!Reflexive R} `{!Transitive R}.

Lemma sat_ret {A} (a : A) : sat R (ret a).
Proof. intros c a' c' [= <- <-]. reflexivity. Qed.

Lemma sat_abort {A} : sat R (@abort _ _ _ A).
Proof. intros c a c' [=]. Qed.

Lemma sat_get : sat R get.
Proof. intros c a c' [= <- <-]. reflexivity. Qed.

Lemma sat_bind {A B} (m : M A) (k : A → M B) :
  sat R m → (∀ a, sat R (k a)) → sat R (bind m k).
Proof.
  intros Hm Hk c b c'. unfold bind.
  destruct (m c) as [[a c1]|] eqn:Hmc; [|done].
  intros Hkc. transitivity c1; [by eapply Hm|by eapply Hk].
Qed.

Lemma sat_modify (f : Ctx → Ctx) : (∀ c, R c (f c)) → sat R (modify f).
Proof. intros Hf c a c' [= <- <-]. apply Hf. Qed.

Lemma sat_FBI_ASSERT (b : bool) : sat R (FBI_ASSERT b).
Proof. destruct b; [apply sat_ret|apply sat_abort]. Qed.

End Frame.

Lemma sat_weaken {A} (R R' : Ctx → Ctx → Prop) (m : M A) :
  (∀ c c', R c c' → R' c c') → sat R m → sat R' m.
Proof. intros HR Hm c a c' Hrun. apply HR. by eapply Hm. Qed.

#[local] Instance tko_frame_refl : Reflexive tko_frame.
Proof.
  intros c. repeat split. exists []. by rewrite app_nil_r.
Qed.

#[local] Instance tko_frame_trans : Transitive tko_frame.
Proof.
  intros c1 c2 c3 (Hs1 & Hg1 & evs1 & He1 & Hf1) (Hs2 & Hg2 & evs2 & He2 & Hf2).
  repeat split; [congruence..|].
  exists (evs1 ++ evs2). split.
  - by rewrite He2, He1, app_assoc.
  - apply Forall_app. split; [done|]. by rewrite <- Hs1.
Qed.

#[local] Instance gauge_frame_refl : Reflexive gauge_frame.
Proof. by intros c. Qed.

#[local] Instance gauge_frame_trans : Transitive gauge_frame.
Proof.
  intros c1 c2 c3 [Hg1 Hs1] [Hg2 Hs2]. split; [|tauto].
  intros n. by rewrite Hg2, Hg1.
Qed.

Lemma tko_frame_gauge_frame (c c' : Ctx) : tko_frame c c' → gauge_frame c c'.
Proof.
  intros (Hs & Hg & _). unfold gauge_frame, contrib. by rewrite Hs, Hg.
Qed.

(** Proves [sat R m] along the structure of [m]; [leaf] proves that a
    single update is in [R]. *)
Ltac sat_go leaf :=
  unfold assert_proxy_magic, CHECK, rand, call, modify_this, modify_proxy;
  repeat first
    [ progress eauto with sat
    | match goal with
      | |- sat ?R (ret _) => apply (sat_ret R)
      | |- sat ?R abort => apply (sat_abort R)
      | |- sat ?R get => apply (sat_get R)
      | |- sat ?R (FBI_ASSERT _) => apply (sat_FBI_ASSERT R)
      | |- sat ?R (modify _) => apply (sat_modify R); intros ?; leaf
      | |- sat ?R (bind _ _) => apply (sat_bind R); [|intros ?]
      | |- sat _ (if ?b then _ else _) => destruct b
      | |- sat _ (match ?x with _ => _ end) => destruct x
      end ].

Ltac tko_leaf :=
  repeat split; cbn; try done; exists []; by rewrite app_nil_r.

Create HintDb sat.

Lemma tko_frame_schedule_next_probe : sat tko_frame schedule_next_probe.
Proof. unfold schedule_next_probe. sat_go tko_leaf. Qed.
#[local] Hint Resolve tko_frame_schedule_next_probe : sat.

Lemma tko_frame_start_sending_probes : sat tko_frame start_sending_probes.
Proof. unfold start_sending_probes. sat_go tko_leaf. Qed.
#[local] Hint Resolve tko_frame_start_sending_probes : sat.

Lemma tko_frame_stop_sending_probes : sat tko_frame stop_sending_probes.
Proof. unfold stop_sending_probes. sat_go tko_leaf. Qed.
#[local] Hint Resolve tko_frame_stop_sending_probes : sat.

Lemma tko_frame_onTkoEvent (ev : TkoLogEvent) (res : mc_res_t) :
  sat tko_frame (onTkoEvent ev res).
Proof.
  intros c a c' [= <- <-]. repeat split. cbn.
  eexists [_]. split; [reflexivity|]. by repeat constructor.
Qed.
#[local] Hint Resolve tko_frame_onTkoEvent : sat.

Lemma tko_frame_tko_recordSuccess : sat tko_frame tko_recordSuccess.
Proof. unfold tko_recordSuccess. sat_go tko_leaf. Qed.
#[local] Hint Resolve tko_frame_tko_recordSuccess : sat.

Lemma tko_frame_tko_recordHardFailure : sat tko_frame tko_recordHardFailure.
Proof. unfold tko_recordHardFailure. sat_go tko_leaf. Qed.
#[local] Hint Resolve tko_frame_tko_recordHardFailure : sat.

Lemma tko_frame_tko_recordSoftFailure : sat tko_frame tko_recordSoftFailure.
Proof. unfold tko_recordSoftFailure. sat_go tko_leaf. Qed.
#[local] Hint Resolve tko_frame_tko_recordSoftFailure : sat.

Lemma tko_frame_unmark_tko (reply : McReply) : sat tko_frame (unmark_tko reply).
Proof. unfold unmark_tko. sat_go tko_leaf. Qed.
#[local] Hint Resolve tko_frame_unmark_tko : sat.

Lemma tko_frame_handle_tko (reply : McReply) (is_probe_req : bool) :
  sat tko_frame (handle_tko reply is_probe_req).
Proof. unfold handle_tko. sat_go tko_leaf. Qed.

(** Restores [start_sending_probes] after it was unfolded by reduction. *)
Ltac fold_start :=
  match goal with
  | |- ∃ c1, bind _ _ ?X = Ok (tt, c1) =>
      change (∃ c1, start_sending_probes X = Ok (tt, c1))
  end.

Lemma handle_tko_returns (reply : McReply) (is_probe_req : bool) (c : Ctx) :
  tko_ready c → ∃ c1, handle_tko reply is_probe_req c = Ok (tt, c1).
Proof.
  intros (Hmagic & Hwf & Hinit & Htimer & Helect).
  unfold handle_tko, unmark_tko, tko_recordSuccess, tko_recordHardFailure,
    tko_recordSoftFailure, onTkoEvent.
  mred.
  destruct (resetting (this c)); cbn; [eauto|].
  destruct (disable_tko_tracking (opts (proxy c))) eqn:Hdis; cbn; [eauto|].
  assert (∀ c' : Ctx, sending_probes (this c') = false →
                magic (proxy c') = proxy_magic (this c') →
                opts (proxy c') = opts (proxy c) →
                probe_timer (this c') = probe_timer (this c) →
                sending_probes (this c') = sending_probes (this c) →
                rng c' = rng c →
                ∃ c1, start_sending_probes c' = Ok (tt, c1)) as Hstart.
  { intros c' Hsp Hm Ho Ht Hs Hr.
    rewrite start_sending_probes_ok; [eauto|done| |by rewrite Ho].
    repeat split; rewrite ?Ho, ?Hr; try done; try apply Hwf.
    rewrite Ht. apply Htimer. by rewrite <- Hs. }
  destruct (isError reply).
  - destruct (isHardTkoError reply); [|destruct (isSoftTkoError reply)]; cbn.
    + destruct (recordHardFailure (self (this c)) (shared_tko c)).1 eqn:Hresp;
        cbn; [|eauto].
      fold_start. apply Hstart; cbn; try done.
      destruct (sending_probes (this c)); [|done].
      destruct Helect as [He _]; [done|congruence].
    + destruct (recordSoftFailure (self (this c)) (shared_tko c)).1 eqn:Hresp;
        cbn; [|eauto].
      fold_start. apply Hstart; cbn; try done.
      destruct (sending_probes (this c)); [|done].
      destruct Helect as [_ He]; [done|congruence].
    + eauto.
  - destruct (negb (sending_probes (this c)) || is_probe_req); cbn; [|eauto].
    rewrite Hdis. cbn. destruct (sending_probes (this c)); cbn; [|eauto].
    destruct (probe_timer (this c)); mred; eauto.
Qed.

(** X16: on a destination that is not yet sending probes, a hard TKO error
    whose recording makes this destination responsible logs one
    [MarkHardTko] event with the result of the reply, after the tracker has
    recorded the failure, and starts the probe episode: the first timer is
    armed for the initial delay times a jitter factor between 1.05 and
    1.50. *)
Theorem handle_tko_hard_election (reply : McReply) (is_probe_req : bool) (c : Ctx) :
  resetting (this c) = false →
  isError reply = true →
  isHardTkoError reply = true →
  (recordHardFailure (self (this c)) (shared_tko c)).1 = true →
  sending_probes (this c) = false →
  scheduler_ready c →
  1 ≤ probe_delay_initial_ms (opts (proxy c)) →
  ∃ c' e t,
    handle_tko reply is_probe_req c = Ok (tt, c')
    ∧ tko_events (proxy c') = tko_events (proxy c) ++ [e]
    ∧ event e = MarkHardTko
    ∧ log_result e = result reply
    ∧ log_isHardTko e = isHardTko (shared_tko c')
    ∧ shared_tko c' = (recordHardFailure (self (this c)) (shared_tko c)).2
    ∧ sending_probes (this c') = true
    ∧ probe_timer (this c') = Some t
    ∧ probe_delay_initial_ms (opts (proxy c)) * 1050 ≤ timer_us t
      ≤ probe_delay_initial_ms (opts (proxy c)) * 1500
    ∧ calls c' = calls c ++ [CallRecordHardFailure (self (this c));
                             CallAddTimer (self (this c)) t].
Proof.
  intros Hres Herr Hhard Helect Hsp (Hmagic & Hdis & Htimer & Hwf) Hinit.
  pose proof (armed_timer_range c (probe_delay_initial_ms (opts (proxy c)))
                Hwf ltac:(lia)) as Hrange.
  unfold handle_tko, tko_recordHardFailure, onTkoEvent. mred.
  rewrite Hres, Hdis, Herr, Hhard. cbn. rewrite Helect. cbn.
  match goal with |- ∃ c' e t, bind _ _ ?X = _ ∧ _ =>
    change (bind _ _ X) with (start_sending_probes X);
    rewrite (start_sending_probes_ok X) by (done || by repeat split)
  end.
  eexists _, _, _. split; [reflexivity|]. cbn. rewrite <- app_assoc.
  repeat split; try done; apply Hrange.
Qed.

(** X17: [resetInactive] on a destination whose client is connected runs
    the down callback inside [closeNow], under [resetting]: the local state
    becomes [kClosed], the client handle is cleared, [resetting] is off
    again, the only call made is [closeNow], and the tracker and the TKO
    event log are as before. *)
Lemma resetInactive_closes_connected (c : Ctx) (cl : AsyncMcClient) :
  magic (proxy c) = proxy_magic (this c) →
  state (stats_ (this c)) ≠ kTko →
  client_ (this c) = Some cl →
  conn_up cl = true →
  statusCallbacks cl = true →
  ∃ c', resetInactive c = Ok (tt, c')
        ∧ state (stats_ (this c')) = kClosed
        ∧ client_ (this c') = None
        ∧ resetting (this c') = false
        ∧ shared_tko c' = shared_tko c
        ∧ tko_events (proxy c') = tko_events (proxy c)
        ∧ calls c' = calls c ++ [CallCloseNow (self (this c))].
Proof.
  intros Hmagic Hst Hcl Hup Hcb.
  unfold resetInactive, client_closeNow, with_client, on_down, setState.
  mred.
  destruct c as [[? pm ? [st ? ?] ? ? ? ? ? ? ?] [m ? ? ? ?] ? ? ? ?].
  cbn in *. subst. rewrite ?Z.eqb_refl. cbn. rewrite Hup, Hcb. cbn.
  rewrite ?Z.eqb_refl. cbn.
  destruct st; try done; cbn; eexists; (split; [reflexivity|]); by cbn.
Qed.

(** ** The gauges of the local states *)

Ltac gauge_leaf := by unfold gauge_frame, contrib; cbn.

(** Decides an equation between gauges after updates at known names. *)
Ltac gauge_arith :=
  repeat (unfold contrib, stat_incr, stat_decr; cbn; repeat case_decide);
  done || lia.

Lemma gauge_frame_handle_tko (reply : McReply) (is_probe_req : bool) :
  sat gauge_frame (handle_tko reply is_probe_req).
Proof.
  eapply sat_weaken; [apply tko_frame_gauge_frame|apply tko_frame_handle_tko].
Qed.
#[local] Hint Resolve gauge_frame_handle_tko : sat.

Lemma gauge_frame_schedule_next_probe : sat gauge_frame schedule_next_probe.
Proof.
  eapply sat_weaken;
    [apply tko_frame_gauge_frame|apply tko_frame_schedule_next_probe].
Qed.
#[local] Hint Resolve gauge_frame_schedule_next_probe : sat.

Lemma setState_gauges (new_st : ProxyDestinationState) (c : Ctx) :
  state (stats_ (this c)) ≠ kTko → new_st ≠ kTko →
  ∃ c' old_name new_name,
    setState new_st c = Ok (tt, c')
    ∧ stat_of (state (stats_ (this c))) = Some old_name
    ∧ stat_of new_st = Some new_name
    ∧ state (stats_ (this c')) = new_st
    ∧ ∀ n, stats (proxy c') n
           = if decide (state (stats_ (this c)) = new_st) then stats (proxy c) n
             else stats (proxy c) n
                  + (if decide (n = new_name) then 1 else 0)
                  - (if decide (n = old_name) then 1 else 0).
Proof.
  intros Hold Hnew. unfold setState, getStatName. mred.
  destruct c as [[? ? ? [st ? ?] ? ? ? ? ? ? ?] [? ? ? ? ?] ? ? ? ?]. cbn in *.
  destruct st, new_st; try done; cbn; eexists _, _, _;
    (split; [reflexivity|]); cbn; (split; [reflexivity|]);
    (split; [reflexivity|]); (split; [reflexivity|]);
    intros n; destruct n; gauge_arith.
Qed.

Lemma gauge_frame_setState (new_st : ProxyDestinationState) :
  new_st ≠ kTko → sat gauge_frame (setState new_st).
Proof.
  intros Hnew c [] c'. unfold setState, getStatName. mred.
  destruct c as [[? ? ? [st ? ?] ? ? ? ? ? ? ?] [? ? ? ? ?] ? ? ? ?]. cbn in *.
  destruct st, new_st; try done; cbn; intros [= <-];
    (split; [|done]); intros n; destruct n; gauge_arith.
Qed.

Lemma gauge_frame_on_up : sat gauge_frame on_up.
Proof.
  unfold on_up. sat_go gauge_leaf. by apply gauge_frame_setState.
Qed.
#[local] Hint Resolve gauge_frame_on_up : sat.

Lemma gauge_frame_on_down : sat gauge_frame on_down.
Proof.
  unfold on_down. sat_go gauge_leaf; by apply gauge_frame_setState.
Qed.
#[local] Hint Resolve gauge_frame_on_down : sat.

Lemma gauge_frame_client_closeNow (down : M unit) :
  sat gauge_frame down → sat gauge_frame (client_closeNow down).
Proof. intros Hdown. unfold client_closeNow, with_client. sat_go gauge_leaf. Qed.

Lemma gauge_frame_resetInactive : sat gauge_frame resetInactive.
Proof.
  unfold resetInactive. sat_go gauge_leaf.
  apply gauge_frame_client_closeNow. eauto with sat.
Qed.

Lemma gauge_frame_updateShortestTimeout (timeout : Z) :
  sat gauge_frame (updateShortestTimeout timeout).
Proof.
  unfold updateShortestTimeout, client_updateWriteTimeout, with_client.
  sat_go gauge_leaf.
Qed.

Lemma gauge_frame_getAsyncMcClient : sat gauge_frame getAsyncMcClient.
Proof.
  unfold getAsyncMcClient, initializeAsyncMcClient, client_setStatusCallbacks,
    client_setThrottle, with_client.
  sat_go gauge_leaf.
Qed.
#[local] Hint Resolve gauge_frame_getAsyncMcClient : sat.

Lemma gauge_frame_probe_task_send : sat gauge_frame probe_task_send.
Proof. unfold probe_task_send. sat_go gauge_leaf. Qed.

Lemma gauge_frame_probe_task_reply (reply : McReply) :
  sat gauge_frame (probe_task_reply reply).
Proof. unfold probe_task_reply. sat_go gauge_leaf. Qed.

Lemma gauge_frame_client_connected : sat gauge_frame client_connected.
Proof. unfold client_connected, with_client. sat_go gauge_leaf. Qed.

Lemma gauge_frame_client_socket_error : sat gauge_frame client_socket_error.
Proof. unfold client_socket_error, with_client. sat_go gauge_leaf. Qed.

Lemma gauge_frame_onReply (reply : McReply) (destreqCtx : DestinationRequestCtx)
    (now : Z) :
  sat gauge_frame (onReply reply destreqCtx now).
Proof. unfold onReply. sat_go gauge_leaf. Qed.

Lemma gauge_frame_fire_probe_timer : sat gauge_frame fire_probe_timer.
Proof. unfold fire_probe_timer, on_timer. sat_go gauge_leaf. Qed.

Lemma ctor_gauges (a : dest_id) (server_timeout : Z) (p : proxy_t) :
  state (stats_ (ProxyDestination_ctor (E:=E) a server_timeout p).1) = kNew
  ∧ ∀ n, stats (ProxyDestination_ctor (E:=E) a server_timeout p).2 n
         = stats p n + (if decide (n = num_servers_new_stat) then 1 else 0).
Proof.
  split; [done|]. intros n. cbn. destruct n; gauge_arith.
Qed.

Lemma dtor_gauges (c : Ctx) :
  state (stats_ (this c)) ≠ kTko →
  ∃ c' name,
    ProxyDestination_dtor c = Ok (tt, c')
    ∧ stat_of (state (stats_ (this c))) = Some name
    ∧ state (stats_ (this c')) = state (stats_ (this c))
    ∧ ∀ n, stats (proxy c') n
           = stats (proxy c) n - (if decide (n = name) then 1 else 0).
Proof.
  intros Hst.
  unfold ProxyDestination_dtor, shared_removeDestination, onTkoEvent,
    stop_sending_probes, client_setStatusCallbacks, client_closeNow,
    with_client.
  mred.
  destruct c as [[? ? ? [st ? ?] cl ? sp ? pt ? ?] [? ? ? ? dm] ? ? ? ?].
  cbn in *.
  destruct dm, cl as [[? ? ? ?]|], sp, pt, st; try done; cbn;
    rewrite ?andb_false_r; cbn;
    eexists _, _; (split; [reflexivity|]); cbn;
    (split; [reflexivity|]); (split; [reflexivity|]);
    intros n; destruct n; gauge_arith.
Qed.

Lemma count_in_empty (n : stat_name_t) : count_in n (∅ : Heap) = O.
Proof. unfold count_in. by rewrite map_filter_empty, map_size_empty. Qed.

Lemma count_in_insert_fresh (n : stat_name_t) (h : Heap) (a : dest_id)
    (d : ProxyDestination) (t : T) :
  h !! a = None →
  Z.of_nat (count_in n (<[a:=(d, t)]> h)) = Z.of_nat (count_in n h) + contrib d n.
Proof.
  intros Ha. unfold count_in, contrib. rewrite map_filter_insert. cbn.
  case_decide.
  - rewrite map_size_insert_None; [lia|].
    apply map_lookup_filter_None_2. by left.
  - rewrite delete_id by done. lia.
Qed.

Lemma count_in_delete_live (n : stat_name_t) (h : Heap) (a : dest_id)
    (d : ProxyDestination) (t : T) :
  h !! a = Some (d, t) →
  Z.of_nat (count_in n (delete a h)) = Z.of_nat (count_in n h) - contrib d n.
Proof.
  intros Ha. rewrite <- (insert_delete_id h a (d, t) Ha) at 2.
  rewrite count_in_insert_fresh by apply lookup_delete_eq. lia.
Qed.

Lemma count_in_insert_live (n : stat_name_t) (h : Heap) (a : dest_id)
    (d d' : ProxyDestination) (t t' : T) :
  h !! a = Some (d, t) →
  Z.of_nat (count_in n (<[a:=(d', t')]> h))
  = Z.of_nat (count_in n h) - contrib d n + contrib d' n.
Proof.
  intros Ha. rewrite <- insert_delete_eq.
  rewrite count_in_insert_fresh by apply lookup_delete_eq.
  rewrite (count_in_delete_live n h a d t Ha). lia.
Qed.

Lemma contrib_total (d : ProxyDestination) :
  state (stats_ d) ≠ kTko →
  contrib d num_servers_new_stat + contrib d num_servers_up_stat
  + contrib d num_servers_closed_stat + contrib d num_servers_down_stat = 1.
Proof. unfold contrib. destruct (state (stats_ d)); try done; gauge_arith. Qed.

Lemma count_in_total (h : Heap) :
  (∀ a d t, h !! a = Some (d, t) → state (stats_ d) ≠ kTko) →
  Z.of_nat (count_in num_servers_new_stat h)
  + Z.of_nat (count_in num_servers_up_stat h)
  + Z.of_nat (count_in num_servers_closed_stat h)
  + Z.of_nat (count_in num_servers_down_stat h)
  = Z.of_nat (size h).
Proof.
  induction h as [|a [d t] h Ha IH] using map_ind; intros Hst.
  - by rewrite !count_in_empty, map_size_empty.
  - rewrite !count_in_insert_fresh, map_size_insert_None by done.
    pose proof (contrib_total d (Hst a d t ltac:(apply lookup_insert_eq))).
    assert (∀ b d' t', h !! b = Some (d', t') → state (stats_ d') ≠ kTko)
      as Hst'.
    { intros b d' t' Hb. apply (Hst b d' t').
      rewrite lookup_insert_ne; [done|]. intros ->. congruence. }
    specialize (IH Hst'). lia.
Qed.

Lemma gauges_agree_init (magic0 : Z) (o : McrouterOptions) (g : rand_source) :
  gauges_agree (init_world magic0 o g : World).
Proof.
  split.
  - intros n. cbn. by rewrite count_in_empty.
  - intros a d t. cbn. by rewrite lookup_empty.
Qed.

Lemma gauges_agree_insert (w : World) (a : dest_id) (d d' : ProxyDestination)
    (t t' : T) (p : proxy_t) (l : list Call) (g : rand_source) (k : nat) :
  gauges_agree w →
  heap w !! a = Some (d, t) →
  (∀ n, stats p n - contrib d' n = stats (w_proxy w) n - contrib d n) →
  state (stats_ d') ≠ kTko →
  gauges_agree {| heap := <[a:=(d', t')]> (heap w); w_proxy := p;
                  w_calls := l; w_rng := g; w_rng_pos := k |}.
Proof.
  intros [Hg Hs] Ha Hp Hd'. split; cbn.
  - intros n. rewrite (count_in_insert_live n _ a d d' t t' Ha).
    specialize (Hp n). specialize (Hg n). lia.
  - intros b d0 t0. rewrite lookup_insert. case_decide.
    + by intros [= <- <-].
    + apply Hs.
Qed.

Lemma gauges_agree_run_on {A} (m : M A) (a : dest_id) (w w' : World) (x : A) :
  sat gauge_frame m →
  gauges_agree w →
  run_on a m w = Ok (x, w') →
  gauges_agree w'.
Proof.
  intros Hm Hw. unfold run_on.
  destruct (heap w !! a) as [[d t]|] eqn:Ha; [|done].
  destruct (m _) as [[x' c]|] eqn:Hrun; [|done].
  intros [= <- <-].
  destruct (Hm _ _ _ Hrun) as [Hg Hs]. cbn in *.
  eapply gauges_agree_insert; eauto.
  apply Hs. by eapply (proj2 Hw).
Qed.

Lemma gauges_agree_step (e : Event) (w w' : World) :
  gauges_agree w → step e w = Ok w' → gauges_agree w'.
Proof.
  intros Hw.
  assert (∀ (m : M unit) a, sat gauge_frame m →
            drop_result (run_on a m w) = Ok w' → gauges_agree w') as Hcall.
  { intros m a Hm. destruct (run_on a m w) as [[[] w1]|] eqn:Hrun; [|done].
    intros [= <-]. by eapply gauges_agree_run_on. }
  destruct e as [a st tko|a|a reply ctx now|a|a|a timeout|a|a reply|a|a|a tko];
    cbn [step].
  - destruct (heap w !! a) eqn:Ha; [done|]. intros [= <-].
    destruct Hw as [Hg Hs]. split; cbn.
    + intros n. rewrite count_in_insert_fresh by done.
      rewrite <- Hg. destruct n; gauge_arith.
    + intros b d t. rewrite lookup_insert. case_decide.
      * by intros [= <- <-].
      * apply Hs.
  - unfold run_on. destruct (heap w !! a) as [[d t]|] eqn:Ha; [|done].
    pose proof (proj2 Hw a d t Ha) as Hd.
    match goal with |- context [ProxyDestination_dtor ?c] =>
      destruct (dtor_gauges c Hd) as (c' & name & -> & Hname & _ & Hstats)
    end.
    intros [= <-]. cbn in *. destruct Hw as [Hg Hs]. split; cbn.
    + intros n. rewrite delete_insert_eq.
      rewrite (count_in_delete_live n _ a d t Ha), Hstats, Hg.
      unfold contrib. rewrite Hname. repeat case_decide; congruence || lia.
    + intros b d0 t0. rewrite delete_insert_eq.
      intros Hb. apply lookup_delete_Some in Hb as [_ Hb]. by eapply Hs.
  - intros Hrun.
    destruct (run_on a (onReply reply ctx now) w) as [[r w1]|] eqn:Hr; [|done].
    injection Hrun as <-.
    eapply gauges_agree_run_on; [apply gauge_frame_onReply|done..].
  - apply Hcall, gauge_frame_fire_probe_timer.
  - apply Hcall, gauge_frame_resetInactive.
  - apply Hcall, gauge_frame_updateShortestTimeout.
  - apply Hcall, gauge_frame_probe_task_send.
  - apply Hcall, gauge_frame_probe_task_reply.
  - apply Hcall, gauge_frame_client_connected.
  - apply Hcall, gauge_frame_client_socket_error.
  - destruct (heap w !! a) as [[d t]|] eqn:Ha; [|done]. intros [= <-].
    eapply gauges_agree_insert; eauto. by eapply (proj2 Hw).
Qed.

Lemma gauges_agree_run (evs : list Event) (w w' : World) :
  gauges_agree w → run evs w = Ok w' → gauges_agree w'.
Proof.
  revert w. induction evs as [|e evs IH]; intros w Hw; cbn.
  - by intros [= <-].
  - destruct (step e w) as [w1|] eqn:Hstep; [|done].
    apply IH. by eapply gauges_agree_step.
Qed.

(** C8: in every state that a proxy reaches from its start, by creating
    and destroying destinations and by anything that happens to them, the
    four gauges add up to the number of live destinations, and each gauge
    counts the destinations in its local state.  The constructor adds one
    to [num_servers_new_stat], the destructor takes one from the gauge of
    the local state the destination ends in, and [setState] with a new
    state takes one from the gauge of the old state, adds one to the gauge
    of the new state and leaves every other gauge as it was. *)
Theorem gauges_count_live_destinations :
  (∀ (evs : list Event) (magic0 : Z) (o : McrouterOptions) (g : rand_source)
     (w : World),
     run evs (init_world magic0 o g) = Ok w →
     gauge_sum (w_proxy w) = Z.of_nat (size (heap w))
     ∧ ∀ n, stats (w_proxy w) n = Z.of_nat (count_in n (heap w)))
  ∧ (∀ (a : dest_id) (server_timeout : Z) (p : proxy_t),
       state (stats_ (ProxyDestination_ctor (E:=E) a server_timeout p).1) = kNew
       ∧ ∀ n, stats (ProxyDestination_ctor (E:=E) a server_timeout p).2 n
              = stats p n
                + (if decide (n = num_servers_new_stat) then 1 else 0))
  ∧ (∀ c : Ctx,
       state (stats_ (this c)) ≠ kTko →
       ∃ c' name,
         ProxyDestination_dtor c = Ok (tt, c')
         ∧ stat_of (state (stats_ (this c))) = Some name
         ∧ state (stats_ (this c')) = state (stats_ (this c))
         ∧ ∀ n, stats (proxy c') n
                = stats (proxy c) n - (if decide (n = name) then 1 else 0))
  ∧ (∀ (new_st : ProxyDestinationState) (c : Ctx),
       state (stats_ (this c)) ≠ kTko → new_st ≠ kTko →
       ∃ c' old_name new_name,
         setState new_st c = Ok (tt, c')
         ∧ stat_of (state (stats_ (this c))) = Some old_name
         ∧ stat_of new_st = Some new_name
         ∧ state (stats_ (this c')) = new_st
         ∧ ∀ n, stats (proxy c') n
                = if decide (state (stats_ (this c)) = new_st)
                  then stats (proxy c) n
                  else stats (proxy c) n
                       + (if decide (n = new_name) then 1 else 0)
                       - (if decide (n = old_name) then 1 else 0)).
Proof.
  split; [|split; [|split]].
  - intros evs magic0 o g w Hrun.
    destruct (gauges_agree_run evs _ w (gauges_agree_init magic0 o g) Hrun)
      as [Hg Hs].
    split; [|done]. unfold gauge_sum. rewrite !Hg. by apply count_in_total.
  - apply ctor_gauges.
  - apply dtor_gauges.
  - apply setState_gauges.
Qed.

(** ** Further properties of the probe scheduler *)

Lemma trunc_times_factor (d : Z) :
  0 ≤ d → trunc (inject_Z d * kProbeExponentialFactor) = d * 15 / 10.
Proof.
  intros Hd. unfold trunc, kProbeExponentialFactor. cbn.
  apply Z.quot_div_nonneg; lia.
Qed.

Lemma next_probe_delay_le_max (max_ms d : Z) :
  next_probe_delay max_ms d ≤ max_ms.
Proof.
  unfold next_probe_delay.
  destruct (d <? 2);
    match goal with |- context [?x >? max_ms] =>
      destruct (Z.gtb_spec x max_ms); lia
    end.
Qed.

Lemma double_to_int_times_factor (d : Z) :
  0 ≤ d ≤ 1431655765 →
  double_to_int (inject_Z d * kProbeExponentialFactor) = d * 3 / 2.
Proof.
  intros Hd. unfold double_to_int. rewrite trunc_times_factor by lia.
  replace (d * 15 / 10) with (d * 3 / 2).
  - assert (0 ≤ d * 3 / 2) by (apply Z.div_pos; lia).
    assert (d * 3 / 2 < 2147483648) by (apply Z.div_lt_upper_bound; lia).
    unfold INT_MIN, INT_MAX.
    destruct (Z.ltb_spec (d * 3 / 2) (-2147483648)); [lia|].
    destruct (Z.gtb_spec (d * 3 / 2) 2147483647); [lia|done].
  - replace (d * 15) with (d * 3 * 5) by lia.
    change 10 with (5 * 2). rewrite <- (Z.div_div (d * 3 * 5) 5 2) by lia.
    by rewrite Z.div_mul by lia.
Qed.

Lemma next_probe_delay_value (max_ms d : Z) :
  d ≤ 1431655765 →
  next_probe_delay max_ms d = Z.min max_ms (Z.max 2 (d * 3 / 2)).
Proof.
  intros Hfit. unfold next_probe_delay.
  destruct (Z.ltb_spec d 2) as [Hlt|Hge].
  - assert (d * 3 / 2 < 2) by (apply Z.div_lt_upper_bound; lia).
    destruct (Z.gtb_spec 2 max_ms); lia.
  - rewrite double_to_int_times_factor by lia.
    assert (d + 1 ≤ d * 3 / 2) by (apply Z.div_le_lower_bound; lia).
    destruct (Z.gtb_spec (d * 3 / 2) max_ms); lia.
Qed.

(** X1: as long as one and a half times the current delay fits an [int]
    (a delay of at most 1431655765 ms), the delay kept for the next probe
    is one and a half times the current one, rounded down, at least 2 and
    at most [probe_delay_max_ms].  It therefore never exceeds the maximum,
    never falls below a current delay that is within the maximum, and is
    strictly larger than a current delay below the maximum: the backoff
    grows until it is capped. *)
Theorem next_probe_delay_grows_to_cap (max_ms d : Z) :
  d ≤ 1431655765 →
  next_probe_delay max_ms d = Z.min max_ms (Z.max 2 (d * 3 / 2))
  ∧ next_probe_delay max_ms d ≤ max_ms
  ∧ (d ≤ max_ms → d ≤ next_probe_delay max_ms d)
  ∧ (d < max_ms → d < next_probe_delay max_ms d).
Proof.
  intros Hfit. unfold next_probe_delay.
  destruct (Z.ltb_spec d 2) as [Hlt|Hge].
  - assert (d * 3 / 2 < 2) by (apply Z.div_lt_upper_bound; lia).
    destruct (Z.gtb_spec 2 max_ms); repeat split; lia.
  - rewrite double_to_int_times_factor by lia.
    assert (d + 1 ≤ d * 3 / 2) by (apply Z.div_le_lower_bound; lia).
    destruct (Z.gtb_spec (d * 3 / 2) max_ms); repeat split; lia.
Qed.

(** X2: whatever the delay kept in [probe_delay_next_ms], as long as it is
    at least 1 ms, [schedule_next_probe] arms a timer between 1.05 and 1.50
    times that delay, as a normalised [timeval], and leaves a next delay
    that is within the maximum. *)
Theorem schedule_next_probe_jitter (c : Ctx) :
  scheduler_ready c →
  1 ≤ probe_delay_next_ms (this c) →
  ∃ c' t, schedule_next_probe c = Ok (tt, c')
          ∧ probe_timer (this c') = Some t
          ∧ probe_delay_next_ms (this c) * 1050 ≤ timer_us t
            ≤ probe_delay_next_ms (this c) * 1500
          ∧ 0 ≤ tv_sec t
          ∧ 0 ≤ tv_usec t < 1000000
          ∧ probe_delay_next_ms (this c') ≤ probe_delay_max_ms (opts (proxy c))
          ∧ calls c' = calls c ++ [CallAddTimer (self (this c)) t].
Proof.
  intros Hready Hd. rewrite schedule_next_probe_ok by done.
  eexists _, _. split; [reflexivity|]. cbn. split; [reflexivity|].
  pose proof Hready as (_ & _ & _ & Hm & Hk).
  pose proof (jittered_delay_us_range (RAND_MAX (rng c))
    (draws (rng c) (rng_pos c)) (probe_delay_next_ms (this c)) Hm
    (Hk (rng_pos c)) ltac:(lia)) as Hr.
  rewrite timer_us_armed_timer. split; [done|].
  unfold armed_timer. cbn.
  split; [apply Z.div_pos; lia|].
  split; [apply Z.mod_pos_bound; lia|].
  split; [apply next_probe_delay_le_max|done].
Qed.

(** X3: when the probe timer expires on a destination that is sending
    probes, a probe is issued only if none is outstanding: with
    [probe_req] empty the request is created, [probesSent_] grows by one and
    one task is queued; with a probe still in flight nothing is sent.  In
    both cases the old timer is removed and exactly one new timer is
    armed. *)
Theorem on_timer_one_probe_in_flight (c : Ctx) (t : asox_timer_t) :
  magic (proxy c) = proxy_magic (this c) →
  disable_tko_tracking (opts (proxy c)) = false →
  rand_wf (rng c) →
  sending_probes (this c) = true →
  probe_timer (this c) = Some t →
  1 ≤ probe_delay_next_ms (this c) →
  ∃ c' t',
    on_timer t c = Ok (tt, c')
    ∧ probe_timer (this c') = Some t'
    ∧ sending_probes (this c') = true
    ∧ match probe_req (this c) with
      | None =>
          probe_req (this c') = Some {| op := mc_op_version |}
          ∧ probesSent_ (this c') = probesSent_ (this c) + 1
          ∧ calls c' = calls c ++ [CallRemoveTimer (self (this c)) t;
                                   CallAddTask (self (this c));
                                   CallAddTimer (self (this c)) t']
      | Some r =>
          probe_req (this c') = Some r
          ∧ probesSent_ (this c') = probesSent_ (this c)
          ∧ calls c' = calls c ++ [CallRemoveTimer (self (this c)) t;
                                   CallAddTimer (self (this c)) t']
      end.
Proof.
  intros Hmagic Htko Hwf Hsp Htimer Hd.
  unfold on_timer. mred.
  rewrite Hmagic, Z.eqb_refl. cbn.
  rewrite Htimer, bool_decide_eq_true_2 by done. cbn. rewrite Hsp.
  destruct (probe_req (this c)) eqn:Hreq; cbn;
    (rewrite schedule_next_probe_ok;
       [|unfold scheduler_ready; cbn; done|cbn; lia]);
    eexists _, _; (split; [reflexivity|]); cbn;
    rewrite <- ?app_assoc; by repeat split.
Qed.

(** ** Further properties of the TKO classification *)

(** X4: the reply of a probe that is not an error, arriving while the
    destination is sending probes, ends the episode: the success is
    recorded, one [UnMarkTko] event is logged that shows the tracker after
    the success and the number of probes sent, and afterwards the flag is
    clear, the timer is removed, [probesSent_] is zero and the probe slot is
    free. *)
Theorem probe_success_stops_probing (reply : McReply) (c : Ctx) :
  isError reply = false →
  sending_probes (this c) = true →
  resetting (this c) = false →
  disable_tko_tracking (opts (proxy c)) = false →
  ∃ c' e,
    probe_task_reply reply c = Ok (tt, c')
    ∧ shared_tko c' = recordSuccess (self (this c)) (shared_tko c)
    ∧ tko_events (proxy c') = tko_events (proxy c) ++ [e]
    ∧ event e = UnMarkTko
    ∧ log_result e = result reply
    ∧ log_probesSent e = probesSent_ (this c)
    ∧ log_isHardTko e = isHardTko (shared_tko c')
    ∧ log_isSoftTko e = isSoftTko (shared_tko c')
    ∧ sending_probes (this c') = false
    ∧ probe_timer (this c') = None
    ∧ probesSent_ (this c') = 0
    ∧ probe_req (this c') = None
    ∧ calls c' = calls c ++ CallRecordSuccess (self (this c))
                   :: match probe_timer (this c) with
                      | Some t => [CallRemoveTimer (self (this c)) t]
                      | None => []
                      end.
Proof.
  intros Herr Hsp Hres Hdis.
  unfold probe_task_reply, handle_tko, unmark_tko, tko_recordSuccess,
    onTkoEvent, stop_sending_probes.
  mred. rewrite Hres, Hdis, Herr, Hsp. cbn. rewrite Hdis. cbn. rewrite Hsp.
  cbn.
  destruct (probe_timer (this c)) eqn:Hpt; cbn; eexists _, _;
    (split; [reflexivity|]); cbn; rewrite <- ?app_assoc; repeat split;
    done.
Qed.

(** X5: an error reply that is neither a hard nor a soft TKO error has no
    effect on the classification: [handle_tko] returns the state it was
    given, for real requests and for probes alike. *)
Theorem handle_tko_other_error (reply : McReply) (is_probe_req : bool) (c : Ctx) :
  isError reply = true →
  isHardTkoError reply = false →
  isSoftTkoError reply = false →
  handle_tko reply is_probe_req c = Ok (tt, c).
Proof.
  intros Herr Hhard Hsoft. unfold handle_tko. mred.
  destruct (resetting (this c) || disable_tko_tracking (opts (proxy c)));
    [done|].
  by rewrite Herr, Hhard, Hsoft.
Qed.

(** X6: a hard or soft TKO error for which the tracker does not make this
    destination responsible is recorded with the tracker and nothing else
    happens: no event is logged and the destination does not start sending
    probes. *)
Theorem handle_tko_not_responsible (reply : McReply) (is_probe_req : bool)
    (c : Ctx) :
  resetting (this c) = false →
  disable_tko_tracking (opts (proxy c)) = false →
  isError reply = true →
  (isHardTkoError reply = true →
   (recordHardFailure (self (this c)) (shared_tko c)).1 = false →
   handle_tko reply is_probe_req c
   = Ok (tt, set_shared_tko
               (recordHardFailure (self (this c)) (shared_tko c)).2
               (set_calls (calls c ++ [CallRecordHardFailure (self (this c))])
                  c)))
  ∧ (isHardTkoError reply = false →
     isSoftTkoError reply = true →
     (recordSoftFailure (self (this c)) (shared_tko c)).1 = false →
     handle_tko reply is_probe_req c
     = Ok (tt, set_shared_tko
                 (recordSoftFailure (self (this c)) (shared_tko c)).2
                 (set_calls (calls c ++ [CallRecordSoftFailure (self (this c))])
                    c))).
Proof.
  intros Hres Hdis Herr. split.
  - intros Hhard Hno. unfold handle_tko, tko_recordHardFailure. mred.
    rewrite Hres, Hdis, Herr, Hhard. cbn. by rewrite Hno.
  - intros Hhard Hsoft Hno. unfold handle_tko, tko_recordSoftFailure. mred.
    rewrite Hres, Hdis, Herr, Hhard, Hsoft. cbn. by rewrite Hno.
Qed.

(** X7: on a destination that is not yet sending probes, a soft TKO error
    whose recording makes this destination responsible logs one
    [MarkSoftTko] event that shows the tracker after the failure, and starts
    the probe episode: the first timer is armed for the initial delay times
    a jitter factor between 1.05 and 1.50.  A reply that is also a hard TKO
    error is never treated as a soft one. *)
Theorem handle_tko_soft_election (reply : McReply) (is_probe_req : bool)
    (c : Ctx) :
  resetting (this c) = false →
  isError reply = true →
  isHardTkoError reply = false →
  isSoftTkoError reply = true →
  (recordSoftFailure (self (this c)) (shared_tko c)).1 = true →
  sending_probes (this c) = false →
  scheduler_ready c →
  1 ≤ probe_delay_initial_ms (opts (proxy c)) →
  ∃ c' e t,
    handle_tko reply is_probe_req c = Ok (tt, c')
    ∧ tko_events (proxy c') = tko_events (proxy c) ++ [e]
    ∧ event e = MarkSoftTko
    ∧ log_result e = result reply
    ∧ log_isSoftTko e = isSoftTko (shared_tko c')
    ∧ shared_tko c' = (recordSoftFailure (self (this c)) (shared_tko c)).2
    ∧ sending_probes (this c') = true
    ∧ probe_timer (this c') = Some t
    ∧ probe_delay_initial_ms (opts (proxy c)) * 1050 ≤ timer_us t
      ≤ probe_delay_initial_ms (opts (proxy c)) * 1500
    ∧ calls c' = calls c ++ [CallRecordSoftFailure (self (this c));
                             CallAddTimer (self (this c)) t].
Proof.
  intros Hres Herr Hhard Hsoft Helect Hsp (Hmagic & Hdis & Htimer & Hwf) Hinit.
  pose proof (armed_timer_range c (probe_delay_initial_ms (opts (proxy c)))
                Hwf ltac:(lia)) as Hrange.
  unfold handle_tko, tko_recordSoftFailure, onTkoEvent. mred.
  rewrite Hres, Hdis, Herr, Hhard, Hsoft. cbn. rewrite Helect. cbn.
  match goal with |- ∃ c' e t, bind _ _ ?X = _ ∧ _ =>
    change (bind _ _ X) with (start_sending_probes X);
    rewrite (start_sending_probes_ok X) by (done || by repeat split)
  end.
  eexists _, _, _. split; [reflexivity|]. cbn. rewrite <- app_assoc.
  repeat split; try done; apply Hrange.
Qed.

(** X8: a lost connection outside a reset counts as a connect error.  When
    a connect error is a hard TKO error and recording it makes the
    destination responsible, [on_down] on a destination that is not yet
    sending probes leaves the local state [kDown], logs one [MarkHardTko]
    event with result [mc_res_connect_error] and starts sending probes, the
    first timer armed for the initial delay times a jitter factor between
    1.05 and 1.50. *)
Theorem on_down_hard_election (c : Ctx) :
  resetting (this c) = false →
  state (stats_ (this c)) ≠ kTko →
  res_isError mc_res_connect_error = true →
  res_isHardTkoError mc_res_connect_error = true →
  (recordHardFailure (self (this c)) (shared_tko c)).1 = true →
  sending_probes (this c) = false →
  scheduler_ready c →
  1 ≤ probe_delay_initial_ms (opts (proxy c)) →
  ∃ c' e t,
    on_down c = Ok (tt, c')
    ∧ state (stats_ (this c')) = kDown
    ∧ tko_events (proxy c') = tko_events (proxy c) ++ [e]
    ∧ event e = MarkHardTko
    ∧ log_result e = mc_res_connect_error
    ∧ shared_tko c' = (recordHardFailure (self (this c)) (shared_tko c)).2
    ∧ sending_probes (this c') = true
    ∧ probe_timer (this c') = Some t
    ∧ probe_delay_initial_ms (opts (proxy c)) * 1050 ≤ timer_us t
      ≤ probe_delay_initial_ms (opts (proxy c)) * 1500
    ∧ calls c' = calls c ++ [CallRecordHardFailure (self (this c));
                             CallAddTimer (self (this c)) t].
Proof.
  intros Hres Hst Herr Hhard Helect Hsp (Hmagic & Hdis & Htimer & Hwf) Hinit.
  pose proof (armed_timer_range c (probe_delay_initial_ms (opts (proxy c)))
                Hwf ltac:(lia)) as Hrange.
  unfold on_down, setState, getStatName, handle_tko, tko_recordHardFailure,
    onTkoEvent, isError, isHardTkoError.
  mred.
  destruct c as [[? pm ? [st ? ?] ? ? ? ? ? ? ?] [m ? ? ? ?] ? ? ? ?].
  cbn in *. subst. rewrite Z.eqb_refl. cbn.
  destruct st; try done; cbn; case_decide; try done; cbn;
    rewrite ?Hdis; cbn; rewrite ?Herr, ?Hhard; cbn; rewrite ?Helect; cbn;
    (rewrite schedule_next_probe_ok;
       [|unfold scheduler_ready; cbn; done|cbn; lia]);
    eexists _, _, _; (split; [reflexivity|]); cbn; rewrite <- ?app_assoc;
    repeat split; try done; apply Hrange.
Qed.

(** ** Further properties of the destination *)

(** X9: [may_send] and [state] read the same tracker: both leave the
    state as it is, [may_send] answers no exactly when the observed state
    is [kTko], and when it answers yes the observed state is the local
    state. *)
Theorem may_send_agrees_with_state (c : Ctx) :
  magic (proxy c) = proxy_magic (this c) →
  state (stats_ (this c)) ≠ kTko →
  ∃ b s, may_send c = Ok (b, c)
         ∧ get_state c = Ok (s, c)
         ∧ b = negb (isTko (shared_tko c))
         ∧ (b = false ↔ s = kTko)
         ∧ (b = true → s = state (stats_ (this c))).
Proof.
  intros Hmagic Hst. unfold may_send, get_state. mred.
  rewrite Hmagic, Z.eqb_refl. cbn.
  destruct (isTko (shared_tko c)); cbn; eexists _, _;
    (split; [reflexivity|]); (split; [reflexivity|]); repeat split;
    intros; done.
Qed.

(** X10: [getAsyncMcClient] creates the client on first use only.  With a
    client in place the call returns and changes nothing, so a second call
    never creates a second client.  Without one, whenever the creation goes
    through, the new client writes with the shortest timeout, has the status
    callbacks installed, is not connected yet, and is throttled exactly
    when [target_max_inflight_requests] is positive; creating it moves no
    gauge and leaves the local state alone.  (The creation itself can be
    stopped by [CHECK(proxy->eventBase)] or by the [checkLogic] on the TLS
    paths; nothing is said here about those runs.) *)
Theorem getAsyncMcClient_lazy (c : Ctx) :
  (∀ cl, client_ (this c) = Some cl → getAsyncMcClient c = Ok (tt, c))
  ∧ (client_ (this c) = None →
     ∀ c', getAsyncMcClient c = Ok (tt, c') →
       client_ (this c')
       = Some {| writeTimeout := shortestTimeout (this c);
                 statusCallbacks := true;
                 conn_up := false;
                 throttle :=
                   if target_max_inflight_requests (opts (proxy c)) >? 0
                   then Some (target_max_inflight_requests (opts (proxy c)),
                              target_max_pending_requests (opts (proxy c)))
                   else None |}
       ∧ getAsyncMcClient c' = Ok (tt, c')
       ∧ stats_ (this c') = stats_ (this c)
       ∧ proxy c' = proxy c
       ∧ shared_tko c' = shared_tko c
       ∧ calls c'
         = calls c ++ CallSetStatusCallbacks (self (this c)) true
             :: (if target_max_inflight_requests (opts (proxy c)) >? 0
                 then [CallSetThrottle (self (this c))
                         (target_max_inflight_requests (opts (proxy c)))
                         (target_max_pending_requests (opts (proxy c)))]
                 else [])).
Proof.
  unfold getAsyncMcClient, initializeAsyncMcClient, client_setStatusCallbacks,
    client_setThrottle, with_client.
  mred.
  destruct c as [[? ? ? ? cl ? ? ? ? ? ?] [? [? ? ? ? inflight ?] ? ? ?] ? ? ? ?].
  cbn. split.
  - by intros cl' ->.
  - intros ->. cbn. intros c'.
    destruct (inflight >? 0); cbn; intros [= <-]; cbn;
      rewrite <- ?app_assoc; by repeat split.
Qed.

(** X11: stopping and starting again is legal from any scheduler state and
    begins a new episode from the initial delay, wherever the backoff of
    the episode before had got to: the probe count is zero again, the first
    timer is armed for [probe_delay_initial_ms] times a jitter factor
    between 1.05 and 1.50, and the delay kept for the second timer is
    within the maximum; as long as one and a half times the initial delay
    fits an [int] it is one and a half times the initial delay, rounded
    down, at least 2 and at most the maximum. *)
Theorem stop_then_start_resets_delay (c : Ctx) :
  magic (proxy c) = proxy_magic (this c) →
  disable_tko_tracking (opts (proxy c)) = false →
  rand_wf (rng c) →
  1 ≤ probe_delay_initial_ms (opts (proxy c)) →
  ∃ c' t,
    stop_then_start c = Ok (tt, c')
    ∧ sending_probes (this c') = true
    ∧ probesSent_ (this c') = 0
    ∧ probe_timer (this c') = Some t
    ∧ probe_delay_initial_ms (opts (proxy c)) * 1050 ≤ timer_us t
      ≤ probe_delay_initial_ms (opts (proxy c)) * 1500
    ∧ last (calls c') = Some (CallAddTimer (self (this c)) t)
    ∧ probe_delay_next_ms (this c') ≤ probe_delay_max_ms (opts (proxy c))
    ∧ (probe_delay_initial_ms (opts (proxy c)) ≤ 1431655765 →
       probe_delay_next_ms (this c')
       = Z.min (probe_delay_max_ms (opts (proxy c)))
           (Z.max 2 (probe_delay_initial_ms (opts (proxy c)) * 3 / 2))).
Proof.
  intros Hmagic Hdis Hwf Hinit.
  pose proof (armed_timer_range c (probe_delay_initial_ms (opts (proxy c)))
                Hwf ltac:(lia)) as Hrange.
  unfold stop_then_start, stop_sending_probes. mred.
  destruct (probe_timer (this c)) eqn:Ht; cbn;
    (rewrite schedule_next_probe_ok;
       [|unfold scheduler_ready; cbn; done|cbn; lia]);
    eexists _, _; (split; [reflexivity|]); cbn; rewrite ?last_snoc;
    repeat split; try done; try apply Hrange;
    try apply next_probe_delay_le_max; try apply next_probe_delay_value.
Qed.

(** X12: the destructor takes the status callbacks off the client before it
    closes it, so closing a connected client does not run [on_down]: the
    local state stays as it was, the tracker is told of the removal and of
    nothing else, and no success or failure is recorded. *)
Theorem dtor_records_no_failure (c : Ctx) :
  state (stats_ (this c)) ≠ kTko →
  ∃ c',
    ProxyDestination_dtor c = Ok (tt, c')
    ∧ state (stats_ (this c')) = state (stats_ (this c))
    ∧ shared_tko c' = tko_removeDestination (self (this c)) (shared_tko c)
    ∧ client_ (this c')
      = match client_ (this c) with
        | Some cl => Some {| writeTimeout := writeTimeout cl;
                             statusCallbacks := false;
                             conn_up := false;
                             throttle := throttle cl |}
        | None => None
        end
    ∧ calls c'
      = calls c
        ++ [CallSharedRemoveDestination (self (this c))]
        ++ (if has_destinationMap (proxy c)
            then [CallMapRemoveDestination (self (this c))] else [])
        ++ match client_ (this c) with
           | Some _ => [CallSetStatusCallbacks (self (this c)) false;
                        CallCloseNow (self (this c))]
           | None => []
           end
        ++ (if sending_probes (this c) then
              match probe_timer (this c) with
              | Some t => [CallRemoveTimer (self (this c)) t]
              | None => []
              end
            else []).
Proof.
  intros Hst.
  unfold ProxyDestination_dtor, shared_removeDestination, onTkoEvent,
    stop_sending_probes, client_setStatusCallbacks, client_closeNow,
    with_client.
  mred.
  destruct c as [[? ? ? [st ? ?] cl ? sp ? pt ? ?] [? ? ? ? dm] ? ? ? ?].
  cbn in *.
  destruct dm, cl as [[? ? ? ?]|], sp, pt, st; try done; cbn;
    rewrite ?andb_false_r; cbn;
    eexists; (split; [reflexivity|]); cbn; rewrite <- ?app_assoc;
    rewrite ?app_nil_r; by repeat split.
Qed.

(** ** Invariants over every run of a proxy *)

Local Abbreviation keeps := (keeps (mc_res_t:=mc_res_t) (T:=T) (E:=E)).
Local Abbreviation world_inv := (world_inv (mc_res_t:=mc_res_t) (T:=T) (E:=E)).
Local Abbreviation client_frame :=
  (client_frame (mc_res_t:=mc_res_t) (T:=T) (E:=E)).

#[local] Instance keeps_refl (P : proxy_t → list Call → Prop)
    (Q : ProxyDestination → Prop) : Reflexive (keeps P Q).
Proof. intros c Hc. exact Hc. Qed.

#[local] Instance keeps_trans (P : proxy_t → list Call → Prop)
    (Q : ProxyDestination → Prop) : Transitive (keeps P Q).
Proof. intros c1 c2 c3 H1 H2 Hc. by apply H2, H1. Qed.

Section WorldInvariant.
Context (P : proxy_t → list Call → Prop) (Q : ProxyDestination → Prop).

Lemma world_inv_run_on {A} (m : M A) (a : dest_id) (w w' : World) (x : A) :
  sat (keeps P Q) m →
  world_inv P Q w →
  run_on a m w = Ok (x, w') →
  world_inv P Q w'.
Proof.
  intros Hm [HP HQ]. unfold run_on.
  destruct (heap w !! a) as [[d t]|] eqn:Ha; [|done].
  destruct (m _) as [[x' c]|] eqn:Hrun; [|done].
  intros [= <- <-].
  destruct (Hm _ _ _ Hrun) as [HP' HQ'].
  { split; cbn; [done|]. by eapply HQ. }
  split; cbn; [done|].
  intros b d0 t0. rewrite lookup_insert. case_decide.
  - by intros [= <- <-].
  - apply HQ.
Qed.

Lemma world_inv_step (e : Event) (w w' : World) :
  members_sat (keeps P Q) →
  (∀ a server_timeout p l,
     P p l →
     P (ProxyDestination_ctor (E:=E) a server_timeout p).2 l
     ∧ Q (ProxyDestination_ctor (E:=E) a server_timeout p).1) →
  world_inv P Q w → step e w = Ok w' → world_inv P Q w'.
Proof.
  intros (Hreply & Htimer & Hreset & Hupd & Hsend & Hprobe & Hconn & Herr
          & Hdtor) Hctor Hw.
  assert (∀ (m : M unit) a, sat (keeps P Q) m →
            drop_result (run_on a m w) = Ok w' → world_inv P Q w') as Hcall.
  { intros m a Hm. destruct (run_on a m w) as [[[] w1]|] eqn:Hrun; [|done].
    intros [= <-]. by eapply world_inv_run_on. }
  destruct e as [a st tko|a|a reply ctx now|a|a|a timeout|a|a reply|a|a|a tko];
    cbn [step].
  - destruct (heap w !! a) eqn:Ha; [done|]. intros [= <-].
    destruct Hw as [HP HQ].
    destruct (Hctor a st _ _ HP) as [HP' HQ'].
    split; cbn; [done|].
    intros b d t. rewrite lookup_insert. case_decide.
    + by intros [= <- <-].
    + apply HQ.
  - destruct (run_on a ProxyDestination_dtor w) as [[[] w1]|] eqn:Hrun; [|done].
    intros [= <-].
    destruct (world_inv_run_on _ _ _ _ _ Hdtor Hw Hrun) as [HP HQ].
    split; cbn; [done|].
    intros b d t Hb. apply lookup_delete_Some in Hb as [_ Hb]. by eapply HQ.
  - intros Hrun.
    destruct (run_on a (onReply reply ctx now) w) as [[r w1]|] eqn:Hr; [|done].
    cbn in Hrun. injection Hrun as <-.
    eapply world_inv_run_on; [apply Hreply|done..].
  - by apply Hcall.
  - by apply Hcall.
  - by apply Hcall.
  - by apply Hcall.
  - by apply Hcall.
  - by apply Hcall.
  - by apply Hcall.
  - destruct (heap w !! a) as [[d t]|] eqn:Ha; [|done]. intros [= <-].
    destruct Hw as [HP HQ]. split; cbn; [done|].
    intros b d0 t0. rewrite lookup_insert. case_decide.
    + intros [= <- <-]. by eapply HQ.
    + apply HQ.
Qed.

Lemma world_inv_run (evs : list Event) (w w' : World) :
  members_sat (keeps P Q) →
  (∀ a server_timeout p l,
     P p l →
     P (ProxyDestination_ctor (E:=E) a server_timeout p).2 l
     ∧ Q (ProxyDestination_ctor (E:=E) a server_timeout p).1) →
  world_inv P Q w → run evs w = Ok w' → world_inv P Q w'.
Proof.
  intros Hm Hctor. revert w. induction evs as [|e evs IH]; intros w Hw; cbn.
  - by intros [= <-].
  - destruct (step e w) as [w1|] eqn:Hstep; [|done].
    apply IH. by eapply world_inv_step.
Qed.

End WorldInvariant.

(** Any returning run of [schedule_next_probe] leaves a timer armed and
    does not touch the flag or the probe count. *)
Lemma schedule_next_probe_arms (c c' : Ctx) (u : unit) :
  schedule_next_probe c = Ok (u, c') →
  probe_timer (this c') ≠ None
  ∧ sending_probes (this c') = sending_probes (this c)
  ∧ probesSent_ (this c') = probesSent_ (this c).
Proof.
  unfold schedule_next_probe. mred.
  destruct (magic (proxy c) =? proxy_magic (this c)); cbn; [|done].
  destruct (negb (disable_tko_tracking (opts (proxy c)))); cbn; [|done].
  destruct (_ >? 0); cbn; [|done].
  destruct (bool_decide (probe_timer (this c) = None)); cbn; [|done].
  intros [= <- <-]. cbn. by repeat split.
Qed.

(** Splits [members_sat R] into one goal for each member function. *)
Ltac members_cases :=
  unfold members_sat;
  repeat apply conj;
  [intros ? ? ?| | |intros ?| |intros ?| | |].

Ltac probe_leaf :=
  by unfold keeps, ctx_inv, no_condition, probe_consistent; cbn.

Lemma probe_consistent_start :
  sat (keeps no_condition probe_consistent) start_sending_probes.
Proof.
  intros c [] c' Hrun _. split; [done|].
  unfold start_sending_probes in Hrun. mred.
  destruct (sending_probes (this c)); cbn in Hrun; [done|].
  apply schedule_next_probe_arms in Hrun as (Ht & Hsp & _). cbn in *.
  split; intros; congruence.
Qed.
#[local] Hint Resolve probe_consistent_start : sat.

Lemma probe_consistent_stop :
  sat (keeps no_condition probe_consistent) stop_sending_probes.
Proof.
  intros c [] c' Hrun _. split; [done|].
  destruct (stop_sending_probes_ok c) as (c1 & Hstop & Hthis & _).
  rewrite Hrun in Hstop. injection Hstop as <-. rewrite Hthis.
  split; cbn; intros; done.
Qed.
#[local] Hint Resolve probe_consistent_stop : sat.

Lemma probe_consistent_on_timer (timer : asox_timer_t) :
  sat (keeps no_condition probe_consistent) (on_timer timer).
Proof.
  intros c [] c' Hrun [_ [Hoff Hon]]. split; [done|].
  unfold on_timer in Hrun. mred.
  destruct (magic (proxy c) =? proxy_magic (this c)); cbn in Hrun; [|done].
  destruct (bool_decide (probe_timer (this c) = Some timer));
    cbn in Hrun; [|done].
  destruct (sending_probes (this c)) eqn:Hsp; cbn in Hrun.
  - destruct (probe_req (this c)); cbn in Hrun;
      apply schedule_next_probe_arms in Hrun as (Ht & Hs & _); cbn in *;
      split; intros; congruence.
  - injection Hrun as <-. destruct (Hoff eq_refl) as [_ Hsent].
    split; cbn; intros; done || congruence.
Qed.
#[local] Hint Resolve probe_consistent_on_timer : sat.

Lemma probe_consistent_handle_tko (reply : McReply) (is_probe_req : bool) :
  sat (keeps no_condition probe_consistent) (handle_tko reply is_probe_req).
Proof.
  unfold handle_tko, unmark_tko, tko_recordSuccess, tko_recordHardFailure,
    tko_recordSoftFailure, onTkoEvent.
  sat_go probe_leaf.
Qed.
#[local] Hint Resolve probe_consistent_handle_tko : sat.

Lemma probe_consistent_members :
  members_sat (keeps no_condition probe_consistent).
Proof.
  members_cases;
    unfold onReply, fire_probe_timer, resetInactive, updateShortestTimeout,
      probe_task_send, probe_task_reply, client_connected,
      client_socket_error, ProxyDestination_dtor, getAsyncMcClient,
      initializeAsyncMcClient, shared_removeDestination, onTkoEvent,
      client_setStatusCallbacks, client_setThrottle, client_updateWriteTimeout,
      client_closeNow, with_client, on_up, on_down, setState, getStatName;
    sat_go probe_leaf.
Qed.

(** X13: in every state that a proxy reaches, the probe scheduler of every
    live destination is consistent: a destination that is not sending
    probes has no timer armed and [probesSent_ = 0], and a destination that
    is sending probes always has its next timer armed, so an episode cannot
    stall. *)
Theorem probe_scheduler_consistent (evs : list Event) (magic0 : Z)
    (o : McrouterOptions) (g : rand_source) (w : World) :
  run evs (init_world magic0 o g) = Ok w →
  ∀ a d t, heap w !! a = Some (d, t) → probe_consistent d.
Proof.
  intros Hrun.
  apply (world_inv_run no_condition probe_consistent evs
           (init_world magic0 o g) w probe_consistent_members);
    [| |exact Hrun].
  - intros a st p l _. split; [done|]. by split.
  - split; [done|]. intros a d t. cbn. by rewrite lookup_empty.
Qed.

(** *** With TKO tracking disabled *)

Ltac off_leaf :=
  unfold keeps, ctx_inv, tracking_off, not_probing; cbn;
  intros ((? & ? & ?) & ? & ?); repeat split; try done;
  (apply Forall_app; split; [done|by repeat constructor]).

Lemma tracking_off_handle_tko (reply : McReply) (is_probe_req : bool) :
  sat (keeps tracking_off not_probing) (handle_tko reply is_probe_req).
Proof.
  intros c [] c' Hrun HI. pose proof HI as ((Hd & _) & _).
  unfold handle_tko in Hrun. mred. rewrite Hd, orb_true_r in Hrun.
  by injection Hrun as <-.
Qed.
#[local] Hint Resolve tracking_off_handle_tko : sat.

Lemma tracking_off_fire_probe_timer :
  sat (keeps tracking_off not_probing) fire_probe_timer.
Proof.
  intros c [] c' Hrun (_ & _ & Ht).
  unfold fire_probe_timer in Hrun. mred. by rewrite Ht in Hrun.
Qed.

Lemma tracking_off_dtor :
  sat (keeps tracking_off not_probing) ProxyDestination_dtor.
Proof.
  intros c [] c'.
  unfold ProxyDestination_dtor, shared_removeDestination, onTkoEvent,
    stop_sending_probes, client_setStatusCallbacks, client_closeNow,
    with_client, keeps, ctx_inv, tracking_off, not_probing.
  mred.
  destruct c as [[? ? ? [st ? ?] cl ? sp ? pt ? ?] [? ? ? ? dm] ? ? ? ?].
  cbn in *. intros Hrun ((Hd & He & Hc) & Hs & Ht). subst.
  revert Hrun.
  destruct dm, cl as [[? ? ? ?]|], st; try done; cbn;
    rewrite ?andb_false_r; cbn; intros [= <-]; cbn;
    repeat split; try done;
    repeat (apply Forall_app; split); try done; by repeat constructor.
Qed.

Lemma tracking_off_members : members_sat (keeps tracking_off not_probing).
Proof.
  members_cases;
    try first [apply tracking_off_fire_probe_timer|apply tracking_off_dtor];
    unfold onReply, resetInactive, updateShortestTimeout,
      probe_task_send, probe_task_reply, client_connected,
      client_socket_error, getAsyncMcClient,
      initializeAsyncMcClient, client_setStatusCallbacks, client_setThrottle,
      client_updateWriteTimeout, client_closeNow, with_client, on_up, on_down,
      setState, getStatName;
    sat_go off_leaf.
Qed.

(** X14: when [disable_tko_tracking] is set, nothing that happens to the
    destinations of a proxy involves the tracker: in every state the proxy
    reaches no TKO event has been logged, no success or failure has been
    recorded, and no destination is sending probes or has a probe timer
    armed. *)
Theorem tracking_disabled_never_probes (evs : list Event) (magic0 : Z)
    (o : McrouterOptions) (g : rand_source) (w : World) :
  disable_tko_tracking o = true →
  run evs (init_world magic0 o g) = Ok w →
  tko_events (w_proxy w) = []
  ∧ Forall (λ k, is_record_call k = false) (w_calls w)
  ∧ ∀ a d t, heap w !! a = Some (d, t) →
             sending_probes d = false ∧ probe_timer d = None.
Proof.
  intros Hoff Hrun.
  destruct (world_inv_run tracking_off not_probing evs
              (init_world magic0 o g) w tracking_off_members)
    as [(_ & He & Hc) HQ]; [| |exact Hrun|].
  - intros a st p l (Hd & He & Hc). by repeat split.
  - split.
    + by repeat split.
    + intros a d t. cbn. by rewrite lookup_empty.
  - split; [done|]. split; [done|]. intros a d t Ha. by apply (HQ a d t).
Qed.

(** *** The write timeout of the client *)

#[local] Instance client_frame_refl : Reflexive client_frame.
Proof. by intros c. Qed.

#[local] Instance client_frame_trans : Transitive client_frame.
Proof. intros c1 c2 c3 [H1 H2] [H3 H4]. split; congruence. Qed.

Ltac client_leaf := by unfold client_frame; cbn.

Lemma client_frame_handle_tko (reply : McReply) (is_probe_req : bool) :
  sat client_frame (handle_tko reply is_probe_req).
Proof.
  unfold handle_tko, unmark_tko, tko_recordSuccess, tko_recordHardFailure,
    tko_recordSoftFailure, onTkoEvent, start_sending_probes,
    stop_sending_probes, schedule_next_probe.
  sat_go client_leaf.
Qed.
#[local] Hint Resolve client_frame_handle_tko : sat.

Lemma client_frame_on_up : sat client_frame on_up.
Proof. unfold on_up, setState, getStatName. sat_go client_leaf. Qed.

Lemma client_frame_on_down : sat client_frame on_down.
Proof. unfold on_down, setState, getStatName. sat_go client_leaf. Qed.

Lemma client_frame_onReply (reply : McReply)
    (destreqCtx : DestinationRequestCtx) (now : Z) :
  sat client_frame (onReply reply destreqCtx now).
Proof. unfold onReply. sat_go client_leaf. Qed.

Lemma client_frame_fire_probe_timer : sat client_frame fire_probe_timer.
Proof.
  unfold fire_probe_timer, on_timer, schedule_next_probe. sat_go client_leaf.
Qed.

Lemma client_frame_probe_task_reply (reply : McReply) :
  sat client_frame (probe_task_reply reply).
Proof. unfold probe_task_reply. sat_go client_leaf. Qed.

Lemma client_frame_keeps (c c' : Ctx) :
  client_frame c c' → keeps no_condition timeout_synced c c'.
Proof.
  intros [Hcl Ht] [_ HQ]. split; [done|].
  unfold timeout_synced. by rewrite Hcl, Ht.
Qed.

Lemma timeout_synced_resetInactive :
  sat (keeps no_condition timeout_synced) resetInactive.
Proof.
  intros c [] c' Hrun [_ HQ]. split; [done|]. revert Hrun.
  unfold resetInactive, client_closeNow, with_client. mred.
  destruct (magic (proxy c) =? proxy_magic (this c)); cbn; [|done].
  destruct (client_ (this c)) as [cl|] eqn:Hcl; cbn; rewrite ?Hcl; cbn.
  - destruct (conn_up cl && statusCallbacks cl); cbn.
    + destruct (on_down _) as [[[] c1]|]; cbn; [|done].
      intros [= <-]. by intros cl'.
    + intros [= <-]. by intros cl'.
  - by intros [= <-].
Qed.

Lemma timeout_synced_updateShortestTimeout (timeout : Z) :
  sat (keeps no_condition timeout_synced) (updateShortestTimeout timeout).
Proof.
  intros c [] c' Hrun [_ HQ]. split; [done|]. revert Hrun.
  unfold updateShortestTimeout, client_updateWriteTimeout, with_client. mred.
  destruct (timeout =? 0); [by intros [= <-]|].
  destruct ((shortestTimeout (this c) =? 0)
            || (shortestTimeout (this c) >? timeout)); cbn;
    [|by intros [= <-]].
  destruct (client_ (this c)) as [cl|] eqn:Hcl; cbn; rewrite ?Hcl; cbn;
    intros [= <-]; intros cl'; cbn; rewrite ?Hcl; by intros [= <-].
Qed.

Lemma timeout_synced_probe_task_send :
  sat (keeps no_condition timeout_synced) probe_task_send.
Proof.
  intros c [] c' Hrun [_ HQ]. split; [done|]. revert Hrun.
  unfold probe_task_send, getAsyncMcClient, initializeAsyncMcClient,
    client_setStatusCallbacks, client_setThrottle, with_client.
  mred.
  destruct (client_ (this c)) as [cl|] eqn:Hcl; cbn; rewrite ?Hcl; cbn.
  - intros [= <-]. intros cl'. cbn. apply HQ.
  - destruct (_ >? 0); cbn; intros [= <-]; intros cl'; cbn;
      by intros [= <-].
Qed.

Lemma timeout_synced_client_connected :
  sat (keeps no_condition timeout_synced) client_connected.
Proof.
  intros c [] c' Hrun [_ HQ]. split; [done|]. revert Hrun.
  unfold client_connected, with_client. mred.
  destruct (client_ (this c)) as [cl|] eqn:Hcl; cbn; [|done].
  destruct (statusCallbacks cl); cbn.
  - intros Hrun. destruct (client_frame_on_up _ _ _ Hrun) as [Hc Ht].
    cbn in *. intros cl'. rewrite Hc, Ht. intros [= <-]. cbn. by apply HQ.
  - intros [= <-]. intros cl'. cbn. intros [= <-]. cbn. by apply HQ.
Qed.

Lemma timeout_synced_client_socket_error :
  sat (keeps no_condition timeout_synced) client_socket_error.
Proof.
  intros c [] c' Hrun [_ HQ]. split; [done|]. revert Hrun.
  unfold client_socket_error, with_client. mred.
  destruct (client_ (this c)) as [cl|] eqn:Hcl; cbn; [|done].
  destruct (statusCallbacks cl); cbn.
  - intros Hrun. destruct (client_frame_on_down _ _ _ Hrun) as [Hc Ht].
    cbn in *. intros cl'. rewrite Hc, Ht. intros [= <-]. cbn. by apply HQ.
  - intros [= <-]. intros cl'. cbn. intros [= <-]. cbn. by apply HQ.
Qed.

Lemma timeout_synced_dtor :
  sat (keeps no_condition timeout_synced) ProxyDestination_dtor.
Proof.
  intros c [] c'.
  unfold ProxyDestination_dtor, shared_removeDestination, onTkoEvent,
    stop_sending_probes, client_setStatusCallbacks, client_closeNow,
    with_client, keeps, ctx_inv, no_condition, timeout_synced.
  mred.
  destruct c as [[? ? ? [st ? ?] cl ? sp ? pt ? ?] [? ? ? ? dm] ? ? ? ?].
  cbn in *. intros Hrun [_ HQ]. revert Hrun.
  destruct dm, cl as [[? ? ? ?]|], sp, pt, st; try done; cbn;
    rewrite ?andb_false_r; cbn; intros [= <-]; cbn;
    (split; [done|]); intros cl'; intros [= <-]; cbn;
    by apply (HQ _ eq_refl).
Qed.

Lemma timeout_synced_members :
  members_sat (keeps no_condition timeout_synced).
Proof.
  members_cases.
  - eapply sat_weaken; [apply client_frame_keeps|apply client_frame_onReply].
  - eapply sat_weaken;
      [apply client_frame_keeps|apply client_frame_fire_probe_timer].
  - apply timeout_synced_resetInactive.
  - apply timeout_synced_updateShortestTimeout.
  - apply timeout_synced_probe_task_send.
  - eapply sat_weaken;
      [apply client_frame_keeps|apply client_frame_probe_task_reply].
  - apply timeout_synced_client_connected.
  - apply timeout_synced_client_socket_error.
  - apply timeout_synced_dtor.
Qed.

(** X15: in every state that a proxy reaches, the client of every live
    destination that has one writes with the destination's shortest
    timeout: the client is created with it, and every change of the
    shortest timeout is passed on. *)
Theorem client_writes_with_shortest_timeout (evs : list Event) (magic0 : Z)
    (o : McrouterOptions) (g : rand_source) (w : World) :
  run evs (init_world magic0 o g) = Ok w →
  ∀ a d t cl, heap w !! a = Some (d, t) → client_ d = Some cl →
              writeTimeout cl = shortestTimeout d.
Proof.
  intros Hrun a d t cl Ha.
  apply (world_inv_run no_condition timeout_synced evs
           (init_world magic0 o g) w timeout_synced_members)
    in Hrun as [_ HQ].
  - by apply (HQ a d t Ha).
  - intros a' st p l _. split; [done|]. by intros cl'.
  - split; [done|]. intros a' d' t'. cbn. by rewrite lookup_empty.
Qed.

(** *** The latency average *)

Ltac latency_leaf :=
  unfold keeps, ctx_inv, options_are, latency_average; cbn;
  intros [? [samples Hsamples]]; (split; [done|]);
  first [ by exists samples
        | by eexists (_ :: samples); cbn; rewrite Hsamples ].

Lemma latency_average_handle_tko (o : McrouterOptions) (reply : McReply)
    (is_probe_req : bool) :
  sat (keeps (options_are o) (latency_average o))
    (handle_tko reply is_probe_req).
Proof.
  unfold handle_tko, unmark_tko, tko_recordSuccess, tko_recordHardFailure,
    tko_recordSoftFailure, onTkoEvent, start_sending_probes,
    stop_sending_probes, schedule_next_probe.
  sat_go latency_leaf.
Qed.
#[local] Hint Resolve latency_average_handle_tko : sat.

Lemma latency_average_members (o : McrouterOptions) :
  members_sat (keeps (options_are o) (latency_average o)).
Proof.
  members_cases;
    unfold onReply, fire_probe_timer, on_timer, resetInactive,
      updateShortestTimeout, probe_task_send, probe_task_reply,
      client_connected, client_socket_error, ProxyDestination_dtor,
      getAsyncMcClient, initializeAsyncMcClient, shared_removeDestination,
      onTkoEvent, stop_sending_probes, schedule_next_probe,
      client_setStatusCallbacks, client_setThrottle, client_updateWriteTimeout,
      client_closeNow, with_client, on_up, on_down, setState, getStatName;
    sat_go latency_leaf.
Qed.

(** C4, as the code has it: [onReply] first runs [handle_tko] with
    [is_probe_req = false] on the state it finds, and only then adds the
    reply to the per-result counters and the latency sample to the moving
    average.  Every TKO event logged during the call therefore carries the
    average latency from before the current sample.  This is so for every
    call of [onReply] that returns, and under the conditions that the
    assertions reached from it check the call does return.  The moving
    average is the one the constructor made with the smoothing factor
    [1.0 / latency_window_size], a binary64 division that gives infinity for
    a window of 0, and in every state a proxy reaches the average of a live
    destination is that one with nothing but samples inserted. *)
Theorem onReply_handles_tko_before_stats :
  (∀ (reply : McReply) (destreqCtx : DestinationRequestCtx) (now : Z) (c : Ctx),
     tko_ready c →
     ∃ c1 evs,
       handle_tko reply false c = Ok (tt, c1)
       ∧ onReply reply destreqCtx now c
         = Ok ({| startTime := startTime destreqCtx; endTime := now |},
               set_this
                 (set_stats_
                    {| state := state (stats_ (this c));
                       results :=
                         (λ r, if decide (r = result reply)
                               then results (stats_ (this c)) r + 1
                               else results (stats_ (this c)) r);
                       avgLatency :=
                         insertSample (now - startTime destreqCtx)
                           (avgLatency (stats_ (this c))) |}
                    (this c1))
                 c1)
       ∧ tko_events (proxy c1) = tko_events (proxy c) ++ evs
       ∧ Forall (λ e, log_avgLatency e
                      = value (avgLatency (stats_ (this c)))) evs)
  ∧ (∀ (reply : McReply) (destreqCtx : DestinationRequestCtx) (now : Z)
       (c : Ctx) (r : DestinationRequestCtx) (c2 : Ctx),
       onReply reply destreqCtx now c = Ok (r, c2) →
       ∃ c1 evs,
         handle_tko reply false c = Ok (tt, c1)
         ∧ r = {| startTime := startTime destreqCtx; endTime := now |}
         ∧ c2 = set_this
                  (set_stats_
                     {| state := state (stats_ (this c));
                        results :=
                          (λ r, if decide (r = result reply)
                                then results (stats_ (this c)) r + 1
                                else results (stats_ (this c)) r);
                        avgLatency :=
                          insertSample (now - startTime destreqCtx)
                            (avgLatency (stats_ (this c))) |}
                     (this c1))
                  c1
         ∧ tko_events (proxy c2) = tko_events (proxy c) ++ evs
         ∧ Forall (λ e, log_avgLatency e
                        = value (avgLatency (stats_ (this c)))) evs)
  ∧ (∀ (a : dest_id) (server_timeout : Z) (p : proxy_t),
       avgLatency (stats_ (ProxyDestination_ctor (E:=E) a server_timeout p).1)
       = smooth_make
           (double_div double_one
              (int_to_double (latency_window_size (opts p))))
       ∧ (latency_window_size (opts p) = 0 →
          avgLatency (stats_ (ProxyDestination_ctor (E:=E) a server_timeout p).1)
          = smooth_make (S754_infinity false)))
  ∧ (∀ (evs : list Event) (magic0 : Z) (o : McrouterOptions) (g : rand_source)
       (w : World),
       run evs (init_world magic0 o g) = Ok w →
       ∀ a d t, heap w !! a = Some (d, t) →
         ∃ samples : list Z,
           avgLatency (stats_ d)
           = foldr insertSample
               (smooth_make
                  (double_div double_one
                     (int_to_double (latency_window_size o))))
               samples).
Proof.
  split; [|split; [|split]].
  - intros reply destreqCtx now c Hready.
    destruct (handle_tko_returns reply false c Hready) as (c1 & Hrun).
    destruct (tko_frame_handle_tko reply false c tt c1 Hrun)
      as (Hstats & _ & evs & Hev & Hlat).
    exists c1, evs. repeat split; try done.
    destruct Hready as (Hmagic & _).
    unfold onReply. mred. rewrite Hmagic, Z.eqb_refl. cbn. rewrite Hrun. cbn.
    by rewrite Hstats.
  - intros reply destreqCtx now c r c2.
    destruct (handle_tko reply false c) as [[[] c1]|] eqn:Hrun.
    + destruct (tko_frame_handle_tko reply false c tt c1 Hrun)
        as (Hstats & _ & evs & Hev & Hlat).
      unfold onReply. mred.
      destruct (magic (proxy c) =? proxy_magic (this c)); cbn; [|done].
      rewrite Hrun. cbn. intros [= <- <-]. exists c1, evs.
      rewrite Hstats. by repeat split.
    + unfold onReply. mred.
      destruct (magic (proxy c) =? proxy_magic (this c)); cbn; [|done].
      by rewrite Hrun.
  - intros a server_timeout p. split; [done|].
    intros Hzero. cbn. by rewrite Hzero.
  - intros evs magic0 o g w Hrun a d t Ha.
    apply (world_inv_run (options_are o) (latency_average o) evs
             (init_world magic0 o g) w (latency_average_members o))
      in Hrun as [_ HQ].
    + by apply (HQ a d t Ha).
    + intros a' st p l Hp. split; [done|]. exists []. cbn.
      unfold options_are in Hp. by rewrite Hp.
    + split; [done|]. intros a' d' t'. cbn. by rewrite lookup_empty.
Qed.

(** *** No probe timer is leaked *)

Local Abbreviation timer_balance :=
  (timer_balance (mc_res_t:=mc_res_t) (T:=T) (E:=E)).
Local Abbreviation timers_accounted :=
  (timers_accounted (mc_res_t:=mc_res_t) (T:=T) (E:=E)).

Lemma timers_from_app (a : dest_id) (l l' : list Call) (ts : list asox_timer_t) :
  timers_from a (l ++ l') ts
  = match timers_from a l ts with
    | Some ts' => timers_from a l' ts'
    | None => None
    end.
Proof.
  revert ts. induction l as [|k l IH]; intros ts; cbn; [done|].
  destruct (timer_step a k ts); [apply IH|done].
Qed.

Lemma armed_timers_snoc (a : dest_id) (l : list Call) (k : Call) :
  armed_timers a (l ++ [k])
  = match armed_timers a l with
    | Some ts => timer_step a k ts
    | None => None
    end.
Proof.
  unfold armed_timers. rewrite timers_from_app.
  destruct (timers_from a l []) as [ts|]; cbn; [|done].
  by destruct (timer_step a k ts).
Qed.

#[local] Arguments armed_timers : simpl never.

#[local] Instance timer_balance_refl : Reflexive timer_balance.
Proof. intros c. by repeat split. Qed.

#[local] Instance timer_balance_trans : Transitive timer_balance.
Proof.
  intros c1 c2 c3 (Hs1 & Ho1 & Hb1) (Hs2 & Ho2 & Hb2).
  rewrite Hs1 in Ho2, Hb2. repeat split.
  - congruence.
  - intros b Hb. rewrite Ho2, Ho1; done.
  - intros Harmed. by apply Hb2, Hb1.
Qed.

(** Settles what a history extended by known calls leaves armed. *)
Ltac armed_go :=
  repeat (rewrite armed_timers_snoc; cbn);
  repeat match goal with
         | H : armed_timers _ _ = Some _ |- _ => rewrite H; cbn
         end;
  repeat match goal with
         | |- context [armed_timers ?b ?l] => destruct (armed_timers b l); cbn
         end;
  repeat case_decide; try congruence; try done.

Ltac balance_leaf :=
  unfold timer_balance, held_timers; cbn; repeat apply conj;
  [done|intros ? ?|intros ?]; armed_go.

Lemma timer_balance_schedule_next_probe :
  sat timer_balance schedule_next_probe.
Proof.
  intros c [] c'. unfold schedule_next_probe. mred.
  destruct (magic (proxy c) =? proxy_magic (this c)); cbn; [|done].
  destruct (negb (disable_tko_tracking (opts (proxy c)))); cbn; [|done].
  destruct (_ >? 0); cbn; [|done].
  case_bool_decide as Hnone; cbn; [|done].
  intros [= <-]. unfold timer_balance, held_timers. cbn.
  rewrite Hnone. cbn. repeat apply conj; [done|intros b Hb|intros Harmed];
    armed_go.
Qed.
#[local] Hint Resolve timer_balance_schedule_next_probe : sat.

Lemma timer_balance_stop_sending_probes :
  sat timer_balance stop_sending_probes.
Proof.
  intros c [] c'. unfold stop_sending_probes. mred.
  destruct (probe_timer (this c)) eqn:Ht; cbn; intros [= <-];
    unfold timer_balance, held_timers; cbn; rewrite Ht; cbn;
    (repeat apply conj; [done|intros b Hb|intros Harmed]); armed_go.
Qed.
#[local] Hint Resolve timer_balance_stop_sending_probes : sat.

Lemma timer_balance_on_timer (timer : asox_timer_t) :
  sat timer_balance (on_timer timer).
Proof.
  intros c [] c'. unfold on_timer. mred.
  destruct (magic (proxy c) =? proxy_magic (this c)); cbn; [|done].
  case_bool_decide as Hsome; cbn; [|done].
  assert (∀ c1 : Ctx,
            self (this c1) = self (this c) →
            probe_timer (this c1) = None →
            (∀ b, armed_timers b (calls c1)
                  = match armed_timers b (calls c) with
                    | Some ts =>
                        timer_step b (CallRemoveTimer (self (this c)) timer) ts
                    | None => None
                    end) →
            timer_balance c c1) as Hfirst.
  { intros c1 Hs Hn Hc. unfold timer_balance, held_timers.
    rewrite Hn, Hsome. cbn.
    repeat apply conj; [done|intros b Hb|intros Harmed]; rewrite Hc; armed_go. }
  destruct (sending_probes (this c)); cbn.
  - destruct (probe_req (this c)); cbn; intros Hrun;
      (etransitivity; [|by eapply timer_balance_schedule_next_probe]);
      apply Hfirst; cbn; try done; intros b; armed_go;
      by destruct (disarm _ _).
  - intros [= <-]. apply Hfirst; cbn; try done. intros b. armed_go.
Qed.
#[local] Hint Resolve timer_balance_on_timer : sat.

Lemma timer_balance_handle_tko (reply : McReply) (is_probe_req : bool) :
  sat timer_balance (handle_tko reply is_probe_req).
Proof.
  unfold handle_tko, unmark_tko, start_sending_probes, tko_recordSuccess,
    tko_recordHardFailure, tko_recordSoftFailure, onTkoEvent.
  sat_go balance_leaf.
Qed.
#[local] Hint Resolve timer_balance_handle_tko : sat.

Lemma timer_balance_members : members_sat timer_balance.
Proof.
  members_cases;
    unfold onReply, fire_probe_timer, resetInactive, updateShortestTimeout,
      probe_task_send, probe_task_reply, client_connected,
      client_socket_error, ProxyDestination_dtor, getAsyncMcClient,
      initializeAsyncMcClient, shared_removeDestination, onTkoEvent,
      client_setStatusCallbacks, client_setThrottle, client_updateWriteTimeout,
      client_closeNow, with_client, on_up, on_down, setState, getStatName;
    sat_go balance_leaf.
Qed.

Lemma dtor_timer_none (c c' : Ctx) (u : unit) :
  probe_consistent (this c) →
  ProxyDestination_dtor c = Ok (u, c') →
  probe_timer (this c') = None.
Proof.
  unfold ProxyDestination_dtor, shared_removeDestination, onTkoEvent,
    stop_sending_probes, client_setStatusCallbacks, client_closeNow,
    with_client, probe_consistent.
  mred.
  destruct c as [[? ? ? [st ? ?] cl ? sp ? pt ? ?] [? ? ? ? dm] ? ? ? ?].
  cbn in *. destruct u. intros [Hoff _].
  destruct dm, cl as [[? ? ? ?]|], sp, pt, st; try done; cbn;
    rewrite ?andb_false_r; cbn; intros [= <-]; cbn; try done;
    by destruct (Hoff eq_refl).
Qed.

Lemma timers_accounted_run_on {A} (m : M A) (a : dest_id) (w w' : World)
    (x : A) :
  sat timer_balance m →
  sat (keeps no_condition probe_consistent) m →
  timers_accounted w →
  run_on a m w = Ok (x, w') →
  timers_accounted w'.
Proof.
  intros Hbal Hkeep [HA HS]. unfold run_on.
  destruct (heap w !! a) as [[d t]|] eqn:Ha; [|done].
  destruct (m _) as [[x' c]|] eqn:Hrun; [|done].
  intros [= <- <-].
  destruct (HS a d t Ha) as [Hself Hpc].
  destruct (Hbal _ _ _ Hrun) as (Hs & Ho & Hb).
  destruct (Hkeep _ _ _ Hrun) as [_ Hpc']; [by split|].
  cbn in *. specialize (HA a) as HAa. rewrite Ha in HAa. split; cbn.
  - intros b. rewrite lookup_insert. case_decide as Hab.
    + subst b. rewrite Hself in Hb. by apply Hb.
    + rewrite Ho by congruence. apply HA.
  - intros b d0 t0. rewrite lookup_insert. case_decide as Hab.
    + intros [= <- <-]. split; [congruence|done].
    + apply HS.
Qed.

Lemma timers_accounted_step (e : Event) (w w' : World) :
  timers_accounted w → step e w = Ok w' → timers_accounted w'.
Proof.
  pose proof timer_balance_members
    as (Hreply & Htimer & Hreset & Hupd & Hsend & Hprobe & Hconn & Herr & Hdtor).
  pose proof probe_consistent_members
    as (Kreply & Ktimer & Kreset & Kupd & Ksend & Kprobe & Kconn & Kerr & Kdtor).
  intros Hw.
  assert (∀ (m : M unit) a,
            sat timer_balance m →
            sat (keeps no_condition probe_consistent) m →
            drop_result (run_on a m w) = Ok w' → timers_accounted w') as Hcall.
  { intros m a Hm Km. destruct (run_on a m w) as [[[] w1]|] eqn:Hrun; [|done].
    intros [= <-]. by eapply timers_accounted_run_on. }
  destruct e as [a st tko|a|a reply ctx now|a|a|a timeout|a|a reply|a|a|a tko];
    cbn [step].
  - destruct (heap w !! a) eqn:Ha; [done|]. intros [= <-].
    destruct Hw as [HA HS]. split; cbn.
    + intros b. rewrite lookup_insert. case_decide as Hab.
      * subst b. specialize (HA a). by rewrite Ha in HA.
      * apply HA.
    + intros b d t. rewrite lookup_insert. case_decide as Hab.
      * intros [= <- <-]. split; [done|]. by split.
      * apply HS.
  - unfold run_on. destruct (heap w !! a) as [[d t]|] eqn:Ha; [|done].
    destruct (ProxyDestination_dtor _) as [[[] c]|] eqn:Hrun; [|done].
    intros [= <-]. destruct Hw as [HA HS].
    destruct (HS a d t Ha) as [Hself Hpc].
    destruct (Hdtor _ _ _ Hrun) as (Hs & Ho & Hb).
    pose proof (λ H, dtor_timer_none _ _ _ H Hrun) as Hnone.
    specialize (Hnone Hpc).
    unfold held_timers in Hb. rewrite Hnone in Hb.
    cbn in *. specialize (HA a) as HAa. rewrite Ha in HAa.
    split; cbn.
    + intros b. rewrite delete_insert_eq, lookup_delete. case_decide as Hab.
      * subst b. rewrite Hself in Hb. by apply Hb.
      * rewrite Ho by congruence. apply HA.
    + intros b d0 t0. rewrite delete_insert_eq.
      intros Hb0. apply lookup_delete_Some in Hb0 as [_ Hb0]. by eapply HS.
  - intros Hrun.
    destruct (run_on a (onReply reply ctx now) w) as [[r w1]|] eqn:Hr; [|done].
    cbn in Hrun. injection Hrun as <-.
    eapply timers_accounted_run_on; [apply Hreply|apply Kreply|done..].
  - by apply Hcall.
  - by apply Hcall.
  - by apply Hcall.
  - by apply Hcall.
  - by apply Hcall.
  - by apply Hcall.
  - by apply Hcall.
  - destruct (heap w !! a) as [[d t]|] eqn:Ha; [|done]. intros [= <-].
    destruct Hw as [HA HS]. split; cbn.
    + intros b. rewrite lookup_insert. case_decide as Hab.
      * subst b. specialize (HA a). by rewrite Ha in HA.
      * apply HA.
    + intros b d0 t0. rewrite lookup_insert. case_decide as Hab.
      * intros [= <- <-]. subst b. by apply (HS a d t).
      * apply HS.
Qed.

(** X18: no probe timer is leaked and none is removed twice.  In every
    state that a proxy reaches, every [asox_remove_timer] so far was given
    the handle of a timer that was armed at that point, and the timers added
    and not yet removed for an address are exactly the one whose handle the
    live destination at that address holds in [probe_timer]: at most one per
    destination, and none for an address without a live destination, in
    particular none after a destination was destroyed. *)
Theorem probe_timers_accounted (evs : list Event) (magic0 : Z)
    (o : McrouterOptions) (g : rand_source) (w : World) :
  run evs (init_world magic0 o g) = Ok w →
  ∀ a, armed_timers a (w_calls w)
       = Some match heap w !! a with
              | Some (d, _) => match probe_timer d with
                               | Some t => [t]
                               | None => []
                               end
              | None => []
              end.
Proof.
  assert (∀ w0 : World, timers_accounted w0 →
            run evs w0 = Ok w → timers_accounted w) as Hruns.
  { induction evs as [|e evs IH]; intros w0 Hw0; cbn.
    - by intros [= <-].
    - destruct (step e w0) as [w1|] eqn:Hstep; [|done].
      apply IH. by eapply timers_accounted_step. }
  intros Hrun.
  destruct (Hruns (init_world magic0 o g)) as [HA _]; [|done|].
  - split.
    + intros a. cbn. by rewrite lookup_empty.
    + intros a d t. cbn. by rewrite lookup_empty.
  - intros a. rewrite HA. destruct (heap w !! a) as [[d t]|]; [|done].
    unfold held_timers. by destruct (probe_timer d).
Qed.

(** X19: a reply that is not an error, on a destination that is not sending
    probes, is reported to the tracker as a success and changes nothing
    else: no event is logged and the probe scheduler is not touched. *)
Theorem handle_tko_success_not_probing (reply : McReply) (is_probe_req : bool)
    (c : Ctx) :
  isError reply = false →
  sending_probes (this c) = false →
  resetting (this c) = false →
  disable_tko_tracking (opts (proxy c)) = false →
  handle_tko reply is_probe_req c
  = Ok (tt, set_shared_tko (recordSuccess (self (this c)) (shared_tko c))
              (set_calls (calls c ++ [CallRecordSuccess (self (this c))]) c)).
Proof.
  intros Herr Hsp Hres Hdis.
  unfold handle_tko, unmark_tko, tko_recordSuccess. mred.
  rewrite Hres, Hdis, Herr, Hsp. cbn. rewrite Hdis. cbn. by rewrite Hsp.
Qed.

End Properties.

(** * Concrete runs *)

Import Model.

Lemma constant_rand_wf : rand_wf (constant_rand 0).
Proof. split; [cbn; lia|]. intros n. cbn. lia. Defined.

Lemma fresh_scheduler_ready (max_ms : Z) : scheduler_ready (fresh max_ms).
Proof. repeat split; try reflexivity; apply constant_rand_wf. Defined.

Lemma fresh_tko_ready (max_ms : Z) : tko_ready (fresh max_ms).
Proof.
  repeat split; try reflexivity; try apply constant_rand_wf; cbn; try lia;
    discriminate.
Defined.

(** C1 at a destination that is probing after a hard TKO: a late
    [res_ok] reply of a real request changes nothing. *)
Lemma handle_tko_success_while_probing_witness :
  handle_tko {| result := res_ok |} false (probing 1000)
  = Ok (tt, probing 1000).
Proof.
  apply (handle_tko_success_while_probing {| result := res_ok |} (probing 1000)).
  - reflexivity.
  - vm_compute. reflexivity.
Defined.

(** C2 as stated fails: hard threshold 1, initial delay 1 ms, [rand()]
    returning 0.  The connect error elects the destination, and the first
    timer is armed 1.05 ms ahead, which is below 2 × 1.05 ms. *)
Lemma first_probe_delay_not_doubled :
  probe_delay_initial_ms (opts (proxy (fresh 1000))) = 1
  ∧ ∃ c t,
      handle_tko {| result := res_connect_error |} false (fresh 1000) = Ok (tt, c)
      ∧ classification (shared_tko c) = HardTko
      ∧ sending_probes (this c) = true
      ∧ probe_timer (this c) = Some t
      ∧ (timer_ms t == 105 # 100)%Q
      ∧ ¬ (2 * (105 # 100) <= timer_ms t <= 2 * (150 # 100))%Q.
Proof.
  split; [reflexivity|].
  exists (probing 1000), {| tv_sec := 0; tv_usec := 1050 |}.
  split; [vm_compute; reflexivity|].
  split; [vm_compute; reflexivity|].
  split; [vm_compute; reflexivity|].
  split; [vm_compute; reflexivity|].
  split; [vm_compute; reflexivity|].
  intros [Hlo _]. vm_compute in Hlo. by apply Hlo.
Qed.

Lemma first_probe_delay_initial_1_witness :
  ∃ c' t, start_sending_probes (fresh 1000) = Ok (tt, c')
          ∧ probe_timer (this c') = Some t
          ∧ (1 * (105 # 100) <= timer_ms t <= 1 * (150 # 100))%Q
          ∧ probe_delay_next_ms (this c')
            = Z.min 2 (probe_delay_max_ms (opts (proxy (fresh 1000)))).
Proof.
  apply (first_probe_delay_initial_1 (fresh 1000)).
  - reflexivity.
  - reflexivity.
  - apply fresh_scheduler_ready.
Defined.

Lemma probe_delays_initial_1_max_10_witness :
  ∃ c' t f,
    probe_episode 7 (fresh 10) = Ok (tt, c')
    ∧ probe_timer (this c') = Some t
    ∧ (105 # 100 <= f <= 150 # 100)%Q
    ∧ timer_us t = trunc (inject_Z (backoff_1_10 7) * 1000 * f)%Q
    ∧ probe_delay_next_ms (this c') = backoff_1_10 8.
Proof.
  apply (probe_delays_initial_1_max_10 (fresh 10) 7).
  - reflexivity.
  - reflexivity.
  - reflexivity.
  - apply fresh_scheduler_ready.
Defined.

(** C4 as stated fails: the average latency is 0, the window is 10, and a
    connect error arrives 500 µs after its request was sent.  The
    [MarkHardTko] event logged by [onReply] carries the average 0, while the
    average that includes the sample is 50 (the binary64 product of the
    smoothing factor and 500). *)
Lemma onReply_event_carries_old_latency :
  ∃ r c e,
    onReply {| result := res_connect_error |}
      {| startTime := 0; endTime := 0 |} 500 (fresh 1000) = Ok (r, c)
    ∧ tko_events (proxy c) = [e]
    ∧ event e = MarkHardTko
    ∧ log_avgLatency e = int_to_double 0
    ∧ value (avgLatency (stats_ (this c))) = int_to_double 50
    ∧ ¬ (log_avgLatency e = value (avgLatency (stats_ (this c)))).
Proof.
  destruct (onReply {| result := res_connect_error |}
              {| startTime := 0; endTime := 0 |} 500 (fresh 1000))
    as [[r c]|] eqn:Hrun; [|vm_compute in Hrun; discriminate].
  exists r, c. vm_compute in Hrun. injection Hrun as <- <-.
  eexists. split; [reflexivity|]. split; [cbn; reflexivity|].
  split; [cbn; reflexivity|]. split; [by vm_compute|].
  split; [by vm_compute|]. cbn. by vm_compute.
Qed.

Lemma onReply_handles_tko_before_stats_witness :
  ∃ c1 evs,
    handle_tko {| result := res_connect_error |} false (fresh 1000) = Ok (tt, c1)
    ∧ onReply {| result := res_connect_error |}
        {| startTime := 0; endTime := 0 |} 500 (fresh 1000)
      = Ok ({| startTime := 0; endTime := 500 |},
            set_this
              (set_stats_
                 {| state := state (stats_ (this (fresh 1000)));
                    results :=
                      (λ r, if decide (r = res_connect_error)
                            then results (stats_ (this (fresh 1000))) r + 1
                            else results (stats_ (this (fresh 1000))) r);
                    avgLatency :=
                      insertSample (500 - 0)
                        (avgLatency (stats_ (this (fresh 1000)))) |}
                 (this c1))
              c1)
    ∧ tko_events (proxy c1) = tko_events (proxy (fresh 1000)) ++ evs
    ∧ Forall (λ e, log_avgLatency e
                   = value (avgLatency (stats_ (this (fresh 1000))))) evs.
Proof.
  exact (proj1 onReply_handles_tko_before_stats
           {| result := res_connect_error |}
           {| startTime := 0; endTime := 0 |} 500 (fresh 1000)
           (fresh_tko_ready 1000)).
Defined.

Lemma on_down_while_resetting_witness :
  ∃ c', on_down (being_reset 1000) = Ok (tt, c')
        ∧ state (stats_ (this c')) = kClosed
        ∧ shared_tko c' = shared_tko (being_reset 1000)
        ∧ calls c' = calls (being_reset 1000)
        ∧ tko_events (proxy c') = tko_events (proxy (being_reset 1000))
        ∧ sending_probes (this c') = sending_probes (this (being_reset 1000))
        ∧ probe_timer (this c') = probe_timer (this (being_reset 1000)).
Proof.
  apply (on_down_while_resetting (being_reset 1000)).
  - reflexivity.
  - vm_compute. reflexivity.
  - vm_compute. discriminate.
Defined.

Lemma start_then_stop_restores_scheduler_witness :
  ∃ c' t, start_then_stop (fresh 1000) = Ok (tt, c')
          ∧ sending_probes (this c') = false
          ∧ probe_timer (this c') = None
          ∧ probesSent_ (this c') = 0
          ∧ calls c' = calls (fresh 1000)
                       ++ [CallAddTimer (self (this (fresh 1000))) t;
                           CallRemoveTimer (self (this (fresh 1000))) t].
Proof.
  apply (start_then_stop_restores_scheduler (fresh 1000)).
  - reflexivity.
  - apply fresh_scheduler_ready.
  - cbn. lia.
Defined.

Lemma gauges_count_live_destinations_witness :
  ∃ w, run two_destinations (init_world 7 (options 1000) (constant_rand 0))
       = Ok w
       ∧ size (heap w) = 1%nat
       ∧ gauge_sum (w_proxy w) = Z.of_nat (size (heap w)).
Proof.
  destruct (run two_destinations (init_world 7 (options 1000) (constant_rand 0)))
    as [w|] eqn:Hrun; [|vm_compute in Hrun; discriminate].
  exists w. split; [reflexivity|]. split.
  - vm_compute in Hrun. injection Hrun as <-. reflexivity.
  - apply (proj1 gauges_count_live_destinations two_destinations 7
             (options 1000) (constant_rand 0) w Hrun).
Defined.

Lemma resetInactive_idempotent_witness :
  ∃ c1, resetInactive (connected 1000) = Ok (tt, c1)
        ∧ client_ (this c1) = None
        ∧ resetInactive c1 = Ok (tt, c1).
Proof.
  apply (resetInactive_idempotent (connected 1000)).
  - vm_compute. reflexivity.
  - vm_compute. discriminate.
Defined.

Lemma dtor_RemoveFromConfig_witness :
  ∃ c', ProxyDestination_dtor (probed 1000) = Ok (tt, c')
        ∧ if sending_probes (this (probed 1000)) then
            (∃ e, tko_events (proxy c')
                  = tko_events (proxy (probed 1000)) ++ [e]
                  ∧ event e = RemoveFromConfig
                  ∧ log_result e = mc_res_ok
                  ∧ log_probesSent e = probesSent_ (this (probed 1000)))
            ∧ sending_probes (this c') = false
            ∧ probe_timer (this c') = None
            ∧ probesSent_ (this c') = 0
            ∧ (∀ t, probe_timer (this (probed 1000)) = Some t →
                    last (calls c')
                    = Some (CallRemoveTimer (self (this (probed 1000))) t))
          else
            tko_events (proxy c') = tko_events (proxy (probed 1000))
            ∧ sending_probes (this c') = false
            ∧ probe_timer (this c') = probe_timer (this (probed 1000))
            ∧ probesSent_ (this c') = probesSent_ (this (probed 1000)).
Proof.
  apply (dtor_RemoveFromConfig (probed 1000)).
  vm_compute. discriminate.
Defined.

(** ** Concrete runs of the further properties *)

Lemma next_probe_delay_grows_to_cap_witness :
  next_probe_delay 10 6 = 9 ∧ next_probe_delay 10 9 = 10
  ∧ next_probe_delay 10 10 = 10.
Proof.
  destruct (next_probe_delay_grows_to_cap 10 6) as (H6 & _); [lia|].
  split; [rewrite H6; reflexivity|]. split; reflexivity.
Defined.

Lemma getAsyncMcClient_lazy_witness :
  ∃ c', getAsyncMcClient (fresh 1000) = Ok (tt, c')
        ∧ client_ (this c')
          = Some {| writeTimeout := 200; statusCallbacks := true;
                    conn_up := false; throttle := None |}
        ∧ getAsyncMcClient c' = Ok (tt, c').
Proof.
  destruct (getAsyncMcClient (fresh 1000)) as [[[] c']|] eqn:Hrun;
    [|vm_compute in Hrun; discriminate].
  destruct (proj2 (getAsyncMcClient_lazy (fresh 1000)) eq_refl c' Hrun)
    as (Hcl & Hagain & _).
  exists c'. by repeat split.
Defined.

Lemma schedule_next_probe_jitter_witness :
  ∃ c' t, schedule_next_probe backed_off = Ok (tt, c')
          ∧ probe_timer (this c') = Some t
          ∧ 6 * 1050 ≤ timer_us t ≤ 6 * 1500.
Proof.
  destruct (schedule_next_probe_jitter backed_off) as (c' & t & Hrun & Ht & Hr & _).
  - apply fresh_scheduler_ready.
  - by vm_compute.
  - exists c', t. split; [exact Hrun|]. split; [exact Ht|exact Hr].
Defined.

Lemma on_timer_one_probe_in_flight_witness :
  ∃ c' t', on_timer {| tv_sec := 0; tv_usec := 1050 |} (probing 1000) = Ok (tt, c')
           ∧ probe_timer (this c') = Some t'
           ∧ probe_req (this c') = Some {| op := mc_op_version |}
           ∧ probesSent_ (this c') = 1.
Proof.
  destruct (on_timer_one_probe_in_flight (probing 1000)
              {| tv_sec := 0; tv_usec := 1050 |})
    as (c' & t' & Hrun & Ht & _ & Hreq).
  - vm_compute. reflexivity.
  - reflexivity.
  - apply constant_rand_wf.
  - vm_compute. reflexivity.
  - vm_compute. reflexivity.
  - vm_compute. discriminate.
  - exists c', t'. change (probe_req (this (probing 1000))) with (@None McRequest) in Hreq.
    destruct Hreq as (Hr & Hs & _). by repeat split.
Defined.

Lemma probe_success_stops_probing_witness :
  ∃ c' (e : @TkoLog res), probe_task_reply {| result := res_ok |} (probed 1000) = Ok (tt, c')
          ∧ event e = UnMarkTko
          ∧ log_probesSent e = 1
          ∧ sending_probes (this c') = false
          ∧ probe_timer (this c') = None.
Proof.
  destruct (probe_success_stops_probing {| result := res_ok |} (probed 1000))
    as (c' & e & Hrun & _ & _ & He & _ & Hn & _ & _ & Hs & Ht & _).
  - reflexivity.
  - vm_compute. reflexivity.
  - vm_compute. reflexivity.
  - vm_compute. reflexivity.
  - exists c', e. by repeat split.
Defined.

Lemma handle_tko_other_error_witness :
  handle_tko {| result := res_remote_error |} true (probed 1000)
  = Ok (tt, probed 1000).
Proof.
  apply (handle_tko_other_error {| result := res_remote_error |} true
           (probed 1000)); reflexivity.
Defined.

Lemma handle_tko_not_responsible_witness :
  ∃ c', handle_tko {| result := res_timeout |} false (fresh 1000) = Ok (tt, c')
        ∧ sending_probes (this c') = false
        ∧ tko_events (proxy c') = [].
Proof.
  destruct (handle_tko_not_responsible {| result := res_timeout |} false
              (fresh 1000)) as [_ Hsoft]; try reflexivity.
  eexists. split; [apply Hsoft; reflexivity|]. by split.
Defined.

Lemma handle_tko_soft_election_witness :
  ∃ c' (e : @TkoLog res), handle_tko {| result := res_timeout |} false soft_twice = Ok (tt, c')
          ∧ event e = MarkSoftTko
          ∧ tko_events (proxy c') = tko_events (proxy soft_twice) ++ [e]
          ∧ sending_probes (this c') = true.
Proof.
  destruct (handle_tko_soft_election {| result := res_timeout |} false soft_twice)
    as (c' & e & t & Hrun & Hev & He & _ & _ & _ & Hs & _).
  - reflexivity.
  - reflexivity.
  - reflexivity.
  - reflexivity.
  - vm_compute. reflexivity.
  - reflexivity.
  - apply fresh_scheduler_ready.
  - by vm_compute.
  - exists c', e. by repeat split.
Defined.

Lemma on_down_hard_election_witness :
  ∃ c' (e : @TkoLog res), on_down (connected 1000) = Ok (tt, c')
          ∧ state (stats_ (this c')) = kDown
          ∧ event e = MarkHardTko
          ∧ log_result e = res_connect_error
          ∧ sending_probes (this c') = true.
Proof.
  destruct (on_down_hard_election (connected 1000))
    as (c' & e & t & Hrun & Hst & _ & He & Hr & _ & Hs & _).
  - vm_compute. reflexivity.
  - vm_compute. discriminate.
  - reflexivity.
  - reflexivity.
  - vm_compute. reflexivity.
  - vm_compute. reflexivity.
  - repeat split; try (vm_compute; reflexivity); apply constant_rand_wf.
  - by vm_compute.
  - exists c', e. by repeat split.
Defined.

Lemma may_send_agrees_with_state_witness :
  may_send (probing 1000) = Ok (false, probing 1000)
  ∧ get_state (probing 1000) = Ok (kTko, probing 1000).
Proof.
  destruct (may_send_agrees_with_state (probing 1000))
    as (b & s & Hsend & Hstate & Hb & Hiff & _).
  - vm_compute. reflexivity.
  - vm_compute. discriminate.
  - assert (b = false) as -> by (rewrite Hb; vm_compute; reflexivity).
    assert (s = kTko) as -> by (by apply Hiff).
    by split.
Defined.

Lemma stop_then_start_resets_delay_witness :
  ∃ c' t, stop_then_start (probed 1000) = Ok (tt, c')
          ∧ sending_probes (this c') = true
          ∧ probesSent_ (this c') = 0
          ∧ probe_timer (this c') = Some t
          ∧ 1050 ≤ timer_us t ≤ 1500
          ∧ probe_delay_next_ms (this c') = 2.
Proof.
  destruct (stop_then_start_resets_delay (probed 1000))
    as (c' & t & Hrun & Hs & Hn & Ht & Hr & _ & _ & Hd).
  - vm_compute. reflexivity.
  - reflexivity.
  - apply constant_rand_wf.
  - by vm_compute.
  - exists c', t. split; [exact Hrun|]. split; [exact Hs|].
    split; [exact Hn|]. split; [exact Ht|]. split; [exact Hr|].
    rewrite Hd; by vm_compute.
Defined.

Lemma dtor_records_no_failure_witness :
  ∃ c', ProxyDestination_dtor (connected 1000) = Ok (tt, c')
        ∧ state (stats_ (this c')) = kUp
        ∧ shared_tko c' = fc_removeDestination 1 healthy.
Proof.
  destruct (dtor_records_no_failure (connected 1000))
    as (c' & Hrun & Hst & Htko & _).
  - vm_compute. discriminate.
  - exists c'. split; [done|]. split; [rewrite Hst; by vm_compute|done].
Defined.

Lemma probe_scheduler_consistent_witness :
  ∃ w d t, run one_probing (init_world 7 (options 1000) (constant_rand 0)) = Ok w
           ∧ heap w !! 1 = Some (d, t)
           ∧ sending_probes d = true
           ∧ probe_consistent d.
Proof.
  destruct (run one_probing (init_world 7 (options 1000) (constant_rand 0)))
    as [w|] eqn:Hrun; [|vm_compute in Hrun; discriminate].
  destruct (heap w !! 1) as [[d t]|] eqn:Hd.
  - exists w, d, t. split; [reflexivity|]. split; [exact Hd|]. split.
    + vm_compute in Hrun. injection Hrun as <-. vm_compute in Hd.
      by injection Hd as <- <-.
    + exact (probe_scheduler_consistent one_probing 7 (options 1000)
               (constant_rand 0) w Hrun 1 d t Hd).
  - vm_compute in Hrun. injection Hrun as <-. vm_compute in Hd. discriminate.
Defined.

Lemma tracking_disabled_never_probes_witness :
  ∃ w, run errors_only (init_world 7 options_off (constant_rand 0)) = Ok w
       ∧ tko_events (w_proxy w) = []
       ∧ Forall (λ k, is_record_call k = false) (w_calls w)
       ∧ ∀ a d t, heap w !! a = Some (d, t) →
                  sending_probes d = false ∧ probe_timer d = None.
Proof.
  destruct (run errors_only (init_world 7 options_off (constant_rand 0)))
    as [w|] eqn:Hrun; [|vm_compute in Hrun; discriminate].
  exists w. split; [reflexivity|].
  exact (tracking_disabled_never_probes errors_only 7 options_off
           (constant_rand 0) w eq_refl Hrun).
Defined.

Lemma client_writes_with_shortest_timeout_witness :
  ∃ w d t cl, run one_probing (init_world 7 (options 1000) (constant_rand 0))
              = Ok w
              ∧ heap w !! 1 = Some (d, t)
              ∧ client_ d = Some cl
              ∧ shortestTimeout d = 50
              ∧ writeTimeout cl = shortestTimeout d.
Proof.
  destruct (run one_probing (init_world 7 (options 1000) (constant_rand 0)))
    as [w|] eqn:Hrun; [|vm_compute in Hrun; discriminate].
  destruct (heap w !! 1) as [[d t]|] eqn:Hd.
  - destruct (client_ d) as [cl|] eqn:Hcl.
    + exists w, d, t, cl. split; [reflexivity|]. split; [exact Hd|].
      split; [exact Hcl|]. split.
      * vm_compute in Hrun. injection Hrun as <-. vm_compute in Hd.
        by injection Hd as <- <-.
      * exact (client_writes_with_shortest_timeout one_probing 7 (options 1000)
                 (constant_rand 0) w Hrun 1 d t cl Hd Hcl).
    + vm_compute in Hrun. injection Hrun as <-. vm_compute in Hd.
      injection Hd as <- <-. vm_compute in Hcl. discriminate.
  - vm_compute in Hrun. injection Hrun as <-. vm_compute in Hd. discriminate.
Defined.

Lemma handle_tko_hard_election_witness :
  ∃ c' (e : @TkoLog res), handle_tko {| result := res_connect_error |} false (fresh 1000)
          = Ok (tt, c')
          ∧ event e = MarkHardTko
          ∧ tko_events (proxy c') = tko_events (proxy (fresh 1000)) ++ [e]
          ∧ sending_probes (this c') = true.
Proof.
  destruct (handle_tko_hard_election {| result := res_connect_error |} false
              (fresh 1000))
    as (c' & e & t & Hrun & Hev & He & _ & _ & _ & Hs & _).
  - reflexivity.
  - reflexivity.
  - reflexivity.
  - reflexivity.
  - reflexivity.
  - apply fresh_scheduler_ready.
  - by vm_compute.
  - exists c', e. by repeat split.
Defined.

Lemma resetInactive_closes_connected_witness :
  ∃ c', resetInactive (connected 1000) = Ok (tt, c')
        ∧ state (stats_ (this c')) = kClosed
        ∧ client_ (this c') = None
        ∧ shared_tko c' = shared_tko (connected 1000).
Proof.
  destruct (resetInactive_closes_connected (connected 1000)
              {| writeTimeout := 200; statusCallbacks := true;
                 conn_up := true; throttle := None |})
    as (c' & Hrun & Hst & Hcl & _ & Htko & _).
  - vm_compute. reflexivity.
  - vm_compute. discriminate.
  - vm_compute. reflexivity.
  - reflexivity.
  - reflexivity.
  - exists c'. by repeat split.
Defined.

Lemma probe_timers_accounted_witness :
  ∃ w, run destroyed_while_probing
         (init_world 7 (options 1000) (constant_rand 0)) = Ok w
       ∧ heap w !! 1 = None
       ∧ armed_timers 1 (w_calls w) = Some [].
Proof.
  destruct (run destroyed_while_probing
              (init_world 7 (options 1000) (constant_rand 0)))
    as [w|] eqn:Hrun; [|vm_compute in Hrun; discriminate].
  exists w. split; [reflexivity|].
  pose proof (probe_timers_accounted destroyed_while_probing 7 (options 1000)
                (constant_rand 0) w Hrun 1) as Hacc.
  assert (heap w !! 1 = None) as Hd.
  { vm_compute in Hrun. injection Hrun as <-. reflexivity. }
  split; [exact Hd|]. rewrite Hacc. clear Hacc Hd.
  vm_compute in Hrun. injection Hrun as <-. reflexivity.
Defined.

Lemma handle_tko_success_not_probing_witness :
  handle_tko {| result := res_ok |} false (fresh 1000)
  = Ok (tt, set_shared_tko (recordSuccess 1 healthy)
              (set_calls [CallRecordSuccess 1] (fresh 1000))).
Proof.
  exact (handle_tko_success_not_probing {| result := res_ok |} false
           (fresh 1000) eq_refl eq_refl eq_refl eq_refl).
Defined.
